(** * Order intake service: extraction with retry, append path, read path

    A shallow embedding of [src/index.js]: the [extractOrder] retry loop and
    its response cleansing, the [POST /orders] handler that flattens an
    extracted order into sheet rows, and the [GET /orders] handler that maps
    sheet rows back to records.

    JavaScript strings are sequences of UTF-16 code units, values are the
    values [JSON.parse] can build (plus [undefined]), exceptions are an error
    result, and every call that leaves the process (completion service,
    spreadsheet service, clock, timer, console) is an event appended to a
    trace; what the outside world answers is a parameter of the model. *)

From Stdlib Require Import List NArith Arith Bool Ascii String DecimalString Lia.
From Equations Require Import Equations.
Import ListNotations.

Set Warnings "-register-all".
Open Scope list_scope.

(** ** Strings *)

Definition jsstring := list N.

(** A literal of the source, one code unit per character (the literals are
    ASCII apart from the two places written out as numbers below). *)
Fixpoint js (s : string) : jsstring :=
  match s with
  | EmptyString => []
  | String c s' => N_of_ascii c :: js s'
  end.

Definition ch (c : ascii) : N := N_of_ascii c.

Definition dquote : N := 34.
Definition newline : N := 10.

Fixpoint jsstring_eqb (a b : jsstring) : bool :=
  match a, b with
  | [], [] => true
  | x :: a', y :: b' => N.eqb x y && jsstring_eqb a' b'
  | _, _ => false
  end.

(** WhiteSpace and LineTerminator of ECMAScript, what [String.prototype.trim]
    removes. *)
Definition is_js_space (c : N) : bool :=
  existsb (N.eqb c)
    [9; 10; 11; 12; 13; 32; 160; 5760; 8232; 8233; 8239; 8287; 12288; 65279]%N
  || (N.leb 8192 c && N.leb c 8202).

Fixpoint trimStart (s : jsstring) : jsstring :=
  match s with
  | [] => []
  | c :: s' => if is_js_space c then trimStart s' else s
  end.

Definition trimEnd (s : jsstring) : jsstring := rev (trimStart (rev s)).

Definition trim (s : jsstring) : jsstring := trimEnd (trimStart s).

Fixpoint starts_with (pat s : jsstring) : bool :=
  match pat, s with
  | [], _ => true
  | p :: pat', c :: s' => N.eqb p c && starts_with pat' s'
  | _ :: _, [] => false
  end.

(** [s.replace(/pat/g, "")] for a literal, non-empty pattern: a left-to-right
    scan that drops each match and resumes after it. [skip] counts the code
    units of the current match still to drop. *)
Fixpoint remove_from (pat : jsstring) (skip : nat) (s : jsstring) : jsstring :=
  match s with
  | [] => []
  | c :: s' =>
      match skip with
      | S k => remove_from pat k s'
      | O => if starts_with pat s
             then remove_from pat (List.length pat - 1) s'
             else c :: remove_from pat 0 s'
      end
  end.

Definition remove_all (pat s : jsstring) : jsstring := remove_from pat 0 s.

(** The suffix of [s] that starts at the first [c]. *)
Fixpoint from_first (c : N) (s : jsstring) : option jsstring :=
  match s with
  | [] => None
  | x :: s' => if N.eqb x c then Some s else from_first c s'
  end.

(** The prefix of [s] that ends at the last [c]. *)
Fixpoint upto_last (c : N) (s : jsstring) : option jsstring :=
  match s with
  | [] => None
  | x :: s' =>
      match upto_last c s' with
      | Some p => Some (x :: p)
      | None => if N.eqb x c then Some [x] else None
      end
  end.

(** [s.match(/\{[\s\S]*\}/)]: the leftmost opening brace, then greedily
    anything (the class [\s\S] is every code unit) up to the last closing
    brace; [None] is the [null] of no match. *)
Definition match_braces (s : jsstring) : option jsstring :=
  match from_first (ch "{") s with
  | None => None
  | Some t => upto_last (ch "}") t
  end.

(** [pat] occurs somewhere in [s]. *)
Fixpoint occurs (pat s : jsstring) : bool :=
  match s with
  | [] => starts_with pat []
  | _ :: s' => starts_with pat s || occurs pat s'
  end.

Definition backtick : N := 96.

Definition all_space (s : jsstring) : Prop :=
  Forall (fun c => is_js_space c = true) s.

(** ** Exceptions *)

(** What a [throw] carries. [ApiError] is what an outside service rejects
    with: an object with a [status] (when it has a numeric one) and a
    [message]. *)
Inductive error : Type :=
| ApiError (status : option N) (message : jsstring)
| TypeError
| SyntaxError
| Error (message : jsstring).

Definition error_status (e : error) : option N :=
  match e with
  | ApiError st _ => st
  | _ => None
  end.

Inductive result (A : Type) : Type :=
| Ok (a : A)
| Throw (e : error).
Arguments Ok {A} a.
Arguments Throw {A} e.

Definition rbind {A B} (r : result A) (k : A -> result B) : result B :=
  match r with
  | Ok a => k a
  | Throw e => Throw e
  end.

(** ** Values *)

(** What the JavaScript engine provides and this model leaves open. Numbers
    are IEEE doubles; the program only passes them through, tests them for
    truthiness, adds one to an array index and interpolates them into a
    string, so what a number is stays abstract. The texts of the engine's own
    [TypeError] and [SyntaxError] messages differ between engines. *)
Class Engine : Type := {
  number : Type;
  number_of_nat : nat -> number;
  number_of_literal : jsstring -> number;
  number_is_falsy : number -> bool;
  number_to_string : number -> jsstring;
  TypeError_message : jsstring;
  SyntaxError_message : jsstring
}.

Section Values.

Context {Eng : Engine}.

Inductive value : Type :=
| VUndefined
| VNull
| VBool (b : bool)
| VNum (n : number)
| VStr (s : jsstring)
| VArr (elements : list value)
| VObj (fields : list (jsstring * value)).

Definition error_message (e : error) : jsstring :=
  match e with
  | ApiError _ m => m
  | TypeError => TypeError_message
  | SyntaxError => SyntaxError_message
  | Error m => m
  end.

(** ToBoolean *)
Definition truthy (v : value) : bool :=
  match v with
  | VUndefined | VNull => false
  | VBool b => b
  | VNum n => negb (number_is_falsy n)
  | VStr s => match s with [] => false | _ => true end
  | VArr _ | VObj _ => true
  end.

Fixpoint lookup (k : jsstring) (fields : list (jsstring * value)) : value :=
  match fields with
  | [] => VUndefined
  | (k', v) :: rest => if jsstring_eqb k k' then v else lookup k rest
  end.

(** [v.k] for the property names the program reads ([message], [items],
    [item], ...), none of which a prototype provides: a [TypeError] on
    [undefined] and [null], the own property of an object, [undefined] on
    anything else. *)
Definition get (v : value) (k : jsstring) : result value :=
  match v with
  | VUndefined | VNull => Throw TypeError
  | VObj fields => Ok (lookup k fields)
  | _ => Ok VUndefined
  end.

(** [a || b] *)
Definition or_else (a b : value) : value := if truthy a then a else b.

Definition isArray (v : value) : bool :=
  match v with
  | VArr _ => true
  | _ => false
  end.

Fixpoint has_key (k : jsstring) (fields : list (jsstring * value)) : bool :=
  match fields with
  | [] => false
  | (k', _) :: rest => jsstring_eqb k k' || has_key k rest
  end.

(** ToString, as a template literal applies it. An array joins its elements
    with commas, [null] and [undefined] elements as empty strings. A parsed
    object prints as [[object Object]] unless it has an own [toString], which
    is then not callable and leaves [valueOf], own or inherited, to fail as
    well. *)
Fixpoint ToString (v : value) : result jsstring :=
  match v with
  | VUndefined => Ok (js "undefined")
  | VNull => Ok (js "null")
  | VBool true => Ok (js "true")
  | VBool false => Ok (js "false")
  | VNum n => Ok (number_to_string n)
  | VStr s => Ok s
  | VArr l =>
      (fix join (l : list value) : result jsstring :=
         match l with
         | [] => Ok []
         | x :: l' =>
             let elem := match x with
                         | VUndefined | VNull => Ok []
                         | _ => ToString x
                         end in
             match l' with
             | [] => elem
             | _ :: _ =>
                 rbind elem (fun a =>
                 rbind (join l') (fun b => Ok (a ++ ch "," :: b)))
             end
         end) l
  | VObj fields =>
      if has_key (js "toString") fields then Throw TypeError
      else Ok (js "[object Object]")
  end.

End Values.


(** ** JSON texts *)

Section JSON.

Context {Eng : Engine}.

Definition is_json_space (c : N) : bool :=
  existsb (N.eqb c) [32; 9; 10; 13]%N.

Fixpoint skip_ws (s : jsstring) : jsstring :=
  match s with
  | [] => []
  | c :: s' => if is_json_space c then skip_ws s' else s
  end.

Definition is_digit (c : N) : bool := N.leb 48 c && N.leb c 57.

Fixpoint span_digits (s : jsstring) : jsstring * jsstring :=
  match s with
  | [] => ([], [])
  | c :: s' =>
      if is_digit c
      then let (d, r) := span_digits s' in (c :: d, r)
      else ([], s)
  end.

Definition hex_value (c : N) : option N :=
  if is_digit c then Some (c - 48)%N
  else if N.leb 97 c && N.leb c 102 then Some (c - 87)%N
  else if N.leb 65 c && N.leb c 70 then Some (c - 55)%N
  else None.

(** The code unit a two-character escape stands for. *)
Definition unescape (c : N) : option N :=
  if N.eqb c 34 then Some 34%N
  else if N.eqb c 92 then Some 92%N
  else if N.eqb c (ch "/") then Some (ch "/")
  else if N.eqb c (ch "b") then Some 8%N
  else if N.eqb c (ch "f") then Some 12%N
  else if N.eqb c (ch "n") then Some 10%N
  else if N.eqb c (ch "r") then Some 13%N
  else if N.eqb c (ch "t") then Some 9%N
  else None.

Definition consumed {A B} (f : A -> B) (r : option (A * jsstring))
  : option (B * jsstring) :=
  match r with
  | Some (a, rest) => Some (f a, rest)
  | None => None
  end.

(** The characters of a string after its opening quote, and what follows the
    closing quote. *)
Fixpoint string_chars (s : jsstring) : option (jsstring * jsstring) :=
  match s with
  | [] => None
  | c :: s1 =>
      if N.eqb c 34 then Some ([], s1)
      else if N.eqb c 92 then
        match s1 with
        | [] => None
        | e :: s2 =>
            if N.eqb e (ch "u") then
              match s2 with
              | h1 :: h2 :: h3 :: h4 :: s3 =>
                  match hex_value h1, hex_value h2, hex_value h3, hex_value h4 with
                  | Some a, Some b, Some c', Some d =>
                      consumed (cons (4096 * a + 256 * b + 16 * c' + d)%N)
                               (string_chars s3)
                  | _, _, _, _ => None
                  end
              | _ => None
              end
            else
              match unescape e with
              | Some u => consumed (cons u) (string_chars s2)
              | None => None
              end
        end
      else if N.ltb c 32 then None
      else consumed (cons c) (string_chars s1)
  end.

(** A number literal at the head of [s]: an optional minus, an integer part
    without leading zeros, an optional fraction, an optional exponent. *)
Definition number_literal (s : jsstring) : option (jsstring * jsstring) :=
  let (sign, s1) :=
    match s with
    | c :: r => if N.eqb c (ch "-") then ([c], r) else ([], s)
    | [] => ([], s)
    end in
  match s1 with
  | [] => None
  | c :: r =>
      let int_part :=
        if N.eqb c (ch "0") then Some ([c], r)
        else if is_digit c then let (d, r') := span_digits r in Some (c :: d, r')
        else None in
      match int_part with
      | None => None
      | Some (int, s2) =>
          let frac_part :=
            match s2 with
            | p :: r2 =>
                if N.eqb p (ch ".") then
                  match span_digits r2 with
                  | ([], _) => None
                  | (d, r3) => Some (p :: d, r3)
                  end
                else Some ([], s2)
            | [] => Some ([], s2)
            end in
          match frac_part with
          | None => None
          | Some (frac, s3) =>
              let exp_part :=
                match s3 with
                | e :: r3 =>
                    if N.eqb e (ch "e") || N.eqb e (ch "E") then
                      let (sg, r4) :=
                        match r3 with
                        | g :: r' =>
                            if N.eqb g (ch "+") || N.eqb g (ch "-")
                            then ([g], r') else ([], r3)
                        | [] => ([], r3)
                        end in
                      match span_digits r4 with
                      | ([], _) => None
                      | (d, r5) => Some (e :: sg ++ d, r5)
                      end
                    else Some ([], s3)
                | [] => Some ([], s3)
                end in
              match exp_part with
              | None => None
              | Some (ex, s4) => Some (sign ++ int ++ frac ++ ex, s4)
              end
          end
      end
  end.

(** Defining a property that is already there replaces its value. *)
Fixpoint set_field (k : jsstring) (v : value) (fields : list (jsstring * value))
  : list (jsstring * value) :=
  match fields with
  | [] => [(k, v)]
  | (k', v') :: rest =>
      if jsstring_eqb k k' then (k', v) :: rest
      else (k', v') :: set_field k v rest
  end.

Definition object_of (members : list (jsstring * value)) : value :=
  VObj (fold_left (fun acc kv => set_field (fst kv) (snd kv) acc) members []).

(** Recursive descent over the JSON grammar. Every call spends one unit of
    [fuel] and all but the call for the first element or member of a
    container come after at least one consumed code unit. *)
Fixpoint parse_value (fuel : nat) (s : jsstring) : option (value * jsstring) :=
  match fuel with
  | O => None
  | S f =>
      match skip_ws s with
      | [] => None
      | c :: r =>
          if N.eqb c (ch "{") then
            match skip_ws r with
            | [] => None
            | c' :: r' =>
                if N.eqb c' (ch "}") then Some (VObj [], r')
                else consumed object_of (parse_members f r)
            end
          else if N.eqb c (ch "[") then
            match skip_ws r with
            | [] => None
            | c' :: r' =>
                if N.eqb c' (ch "]") then Some (VArr [], r')
                else consumed VArr (parse_elements f r)
            end
          else if N.eqb c 34 then consumed VStr (string_chars r)
          else if starts_with (js "true") (c :: r)
               then Some (VBool true, skipn 4 (c :: r))
          else if starts_with (js "false") (c :: r)
               then Some (VBool false, skipn 5 (c :: r))
          else if starts_with (js "null") (c :: r)
               then Some (VNull, skipn 4 (c :: r))
          else consumed (fun lit => VNum (number_of_literal lit))
                        (number_literal (c :: r))
      end
  end
with parse_elements (fuel : nat) (s : jsstring)
  : option (list value * jsstring) :=
  match fuel with
  | O => None
  | S f =>
      match parse_value f s with
      | None => None
      | Some (v, r) =>
          match skip_ws r with
          | [] => None
          | c :: r' =>
              if N.eqb c (ch ",") then consumed (cons v) (parse_elements f r')
              else if N.eqb c (ch "]") then Some ([v], r')
              else None
          end
      end
  end
with parse_members (fuel : nat) (s : jsstring)
  : option (list (jsstring * value) * jsstring) :=
  match fuel with
  | O => None
  | S f =>
      match skip_ws s with
      | [] => None
      | q :: r =>
          if N.eqb q 34 then
            match string_chars r with
            | None => None
            | Some (k, r1) =>
                match skip_ws r1 with
                | [] => None
                | c :: r2 =>
                    if N.eqb c (ch ":") then
                      match parse_value f r2 with
                      | None => None
                      | Some (v, r3) =>
                          match skip_ws r3 with
                          | [] => None
                          | c' :: r4 =>
                              if N.eqb c' (ch ",")
                              then consumed (cons (k, v)) (parse_members f r4)
                              else if N.eqb c' (ch "}") then Some ([(k, v)], r4)
                              else None
                          end
                      end
                    else None
                end
            end
          else None
      end
  end.

(** A JSON text is one value with white space around it and nothing else.
    The fuel is enough for every text: a value that spans [n] code units
    needs at most [2 * n] nested calls. *)
Definition parse_text (text : jsstring) : option value :=
  match parse_value (2 * List.length text + 2) text with
  | Some (v, rest) =>
      match skip_ws rest with
      | [] => Some v
      | _ :: _ => None
      end
  | None => None
  end.

End JSON.

(** [JSON.parse] is the engine's, not the program's: the program is modelled
    over any parser, [None] being its [SyntaxError], and run on [parse_text]
    in the examples. *)
Class JSON {Eng : Engine} : Type := {
  JSON_parse : jsstring -> option value
}.

(** ** The outside world *)

Section Service.

Context {Eng : Engine}.

(** What one call of [ai.models.generateContent] comes back with: a response
    whose [candidates[0].content.parts[0].text] is a string, a response where
    that path does not lead to a string, or a rejection. *)
Inductive completion : Type :=
| Generated (text : jsstring)
| Unreadable
| Rejected (e : error).

Inductive event : Type :=
| GenerateContent (model prompt : jsstring)
| ConsoleWarn
| SetTimeout (ms : N)
| GetClient
| NewDate
| ValuesAppend (spreadsheetId : value) (range valueInputOption : jsstring)
               (values : list (list value))
| ValuesGet (spreadsheetId : value) (range : jsstring)
| ConsoleError (e : error).

Definition trace := list event.

(** The answers of the outside world. Each one may depend on how many calls
    of its kind came before and on what the call sends. *)
Record World : Type := {
  generateContent : nat -> jsstring -> jsstring -> completion;
  getClient : nat -> option error;
  toLocaleString : nat -> jsstring;
  valuesAppend : nat -> list (list value) -> option error;
  valuesGet : nat -> result (option (list (list value)));
  SPREADSHEET_ID : value
}.

Definition is_GenerateContent (e : event) : bool :=
  match e with GenerateContent _ _ => true | _ => false end.
Definition is_SetTimeout (e : event) : bool :=
  match e with SetTimeout _ => true | _ => false end.
Definition is_GetClient (e : event) : bool :=
  match e with GetClient => true | _ => false end.
Definition is_NewDate (e : event) : bool :=
  match e with NewDate => true | _ => false end.
Definition is_ValuesAppend (e : event) : bool :=
  match e with ValuesAppend _ _ _ _ => true | _ => false end.
Definition is_ValuesGet (e : event) : bool :=
  match e with ValuesGet _ _ => true | _ => false end.

Definition count (p : event -> bool) (tr : trace) : nat :=
  List.length (filter p tr).

(** The calls to the completion service and the waits in a trace. *)
Definition calls (tr : trace) : nat := count is_GenerateContent tr.
Definition sleeps (tr : trace) : nat := count is_SetTimeout tr.

(** ** Computations: a trace threaded through, exceptions as results *)

Definition M (A : Type) : Type := trace -> result A * trace.

Definition ret {A} (a : A) : M A := fun tr => (Ok a, tr).

Definition throw {A} (e : error) : M A := fun tr => (Throw e, tr).

Definition bind {A B} (c : M A) (k : A -> M B) : M B :=
  fun tr =>
    match c tr with
    | (Ok a, tr') => k a tr'
    | (Throw e, tr') => (Throw e, tr')
    end.

Definition try_catch {A} (c : M A) (handler : error -> M A) : M A :=
  fun tr =>
    match c tr with
    | (Ok a, tr') => (Ok a, tr')
    | (Throw e, tr') => handler e tr'
    end.

Definition lift {A} (r : result A) : M A := fun tr => (r, tr).

Definition emit (e : event) : M unit := fun tr => (Ok tt, tr ++ [e]).

End Service.

Declare Scope js_scope.
Delimit Scope js_scope with js.
Notation "x <- c ;; k" := (bind c (fun x => k))
  (at level 61, c at next level, right associativity) : js_scope.
Notation "c ;; k" := (bind c (fun _ => k))
  (at level 61, right associativity) : js_scope.
Open Scope js_scope.

(** ** The program *)

Section Program.

Context {Eng : Engine} {Json : JSON}.
Variable W : World.

(** *** Calls that leave the process *)

(** [await ai.models.generateContent({model, contents: [{text: prompt}]})]
    followed by the read of [response.candidates[0].content.parts[0].text]. *)
Definition call_generateContent (model prompt : jsstring) : M jsstring :=
  fun tr =>
    let tr' := tr ++ [GenerateContent model prompt] in
    match generateContent W (count is_GenerateContent tr) model prompt with
    | Generated text => (Ok text, tr')
    | Unreadable => (Throw TypeError, tr')
    | Rejected e => (Throw e, tr')
    end.

(** [await new Promise((res) => setTimeout(res, ms))] *)
Definition sleep (ms : N) : M unit := emit (SetTimeout ms).

(** [await auth.getClient()] *)
Definition call_getClient : M unit :=
  fun tr =>
    let tr' := tr ++ [GetClient] in
    match getClient W (count is_GetClient tr) with
    | None => (Ok tt, tr')
    | Some e => (Throw e, tr')
    end.

(** [new Date().toLocaleString()] *)
Definition new_Date_toLocaleString : M jsstring :=
  fun tr => (Ok (toLocaleString W (count is_NewDate tr)), tr ++ [NewDate]).

(** [await sheetsAPI.spreadsheets.values.append({...})] *)
Definition call_valuesAppend (range valueInputOption : jsstring)
    (values : list (list value)) : M unit :=
  fun tr =>
    let tr' :=
      tr ++ [ValuesAppend (SPREADSHEET_ID W) range valueInputOption values] in
    match valuesAppend W (count is_ValuesAppend tr) values with
    | None => (Ok tt, tr')
    | Some e => (Throw e, tr')
    end.

(** [await sheetsAPI.spreadsheets.values.get({...})], then
    [response.data.values]; [None] is [undefined]. *)
Definition call_valuesGet (range : jsstring)
  : M (option (list (list value))) :=
  fun tr =>
    (valuesGet W (count is_ValuesGet tr),
     tr ++ [ValuesGet (SPREADSHEET_ID W) range]).

(** *** extractOrder *)

Definition quoted (s : jsstring) : jsstring := dquote :: s ++ [dquote].

Definition prompt_lines : list jsstring :=
  [ js "You are a data extraction assistant for a chicken and meat sales system.";
    js "From the message below, extract structured order data as **pure JSON**.";
    js "The message may contain one or multiple items.";
    [];
    js "Return JSON in this structure (no extra text or markdown):";
    [];
    js "{";
    js "  " ++ quoted (js "customer_name") ++ js ": " ++ quoted (js "string") ++ js ",";
    js "  " ++ quoted (js "payment_mode") ++ js ": " ++ quoted (js "Cash | UPI | Card") ++ js ",";
    js "  " ++ quoted (js "items") ++ js ": [";
    js "    {";
    js "      " ++ quoted (js "item") ++ js ": " ++ quoted (js "chicken") ++ js ",";
    js "      " ++ quoted (js "quantity") ++ js ": 2,";
    js "      " ++ quoted (js "unit") ++ js ": " ++ quoted (js "kg") ++ js ",";
    js "      " ++ quoted (js "price") ++ js ": 180,";
    js "      " ++ quoted (js "total_price") ++ js ": 360";
    js "    },";
    js "    {";
    js "      " ++ quoted (js "item") ++ js ": " ++ quoted (js "boneless chicken") ++ js ",";
    js "      " ++ quoted (js "quantity") ++ js ": 1,";
    js "      " ++ quoted (js "unit") ++ js ": " ++ quoted (js "kg") ++ js ",";
    js "      " ++ quoted (js "price") ++ js ": 250,";
    js "      " ++ quoted (js "total_price") ++ js ": 250";
    js "    }";
    js "  ]";
    js "}";
    [];
    js "Rules:";
    js "- Default prices: chicken=180/kg, mixed chicken=200/kg, boneless chicken=250/kg, wings=190/kg, mutton=600/kg.";
    js "- Default payment_mode=" ++ quoted (js "Cash") ++ js " if missing.";
    js "- If total_price missing, calculate quantity " ++ [195; 8212]%N ++ js " price.";
    js "- Output only valid JSON, no markdown.";
    [] ].

(** The template literal, [message] already converted to a string. *)
Definition prompt (message : jsstring) : jsstring :=
  newline ::
  List.concat (map (fun line => line ++ [newline])
                   (prompt_lines ++ [js "Message: " ++ quoted message])).

Definition model : jsstring := js "gemini-2.0-flash".

(** Lines 76 to 80: from the text of the response to the parse candidate. *)
Definition cleanJson (response_text : jsstring) : jsstring :=
  let text := trim response_text in
  let text := trim (remove_all (js "```") (remove_all (js "```json") text)) in
  let jsonMatch := match_braces text in
  match jsonMatch with
  | Some m => m
  | None => text
  end.

(** The text the brace match runs on: trimmed, both markers removed, trimmed
    again. *)
Definition stripped (response_text : jsstring) : jsstring :=
  trim (remove_all (js "```") (remove_all (js "```json") (trim response_text))).

(** The body of the [try] block. *)
Definition attempt (prompt : jsstring) : M value :=
  text <- call_generateContent model prompt ;;
  match JSON_parse (cleanJson text) with
  | Some v => ret v
  | None => throw SyntaxError
  end.

(** [error.status === 429] *)
Definition is_rate_limit (e : error) : bool :=
  match error_status e with
  | Some st => N.eqb st 429
  | None => false
  end.

Definition exhausted : error :=
  Error (js "Gemini API exhausted or returned invalid JSON.").

(** The [while (attempts < 3)] loop and the [throw] after it. *)
Equations? retry_loop (prompt : jsstring) (attempts : nat) (tr : trace)
  : result value * trace by wf (3 - attempts) lt :=
  retry_loop prompt attempts tr with lt_dec attempts 3 := {
    | left _ with attempt prompt tr := {
        | (Ok v, tr1) := (Ok v, tr1);
        | (Throw e, tr1) with is_rate_limit e := {
            | true :=
                retry_loop prompt (S attempts)
                           (tr1 ++ [ConsoleWarn; SetTimeout 5000]);
            | false := (Throw e, tr1) } };
    | right _ := (Throw exhausted, tr) }.
Proof. clear retry_loop. destruct attempts as [|[|[|?]]]; lia. Qed.

Definition extractOrder (message : value) : M value :=
  text <- lift (ToString message) ;;
  retry_loop (prompt text) 0.

(** *** The HTTP handlers *)

Record response : Type := { statusCode : N; body : value }.

(** [res.json(body)] answers with 200, [res.status(n).json(body)] with [n]. *)
Definition res_json (body : value) : response :=
  {| statusCode := 200; body := body |}.
Definition res_status_json (n : N) (body : value) : response :=
  {| statusCode := n; body := body |}.

Fixpoint mapM {A B} (f : A -> M B) (l : list A) : M (list B) :=
  match l with
  | [] => ret []
  | x :: l' => y <- f x ;; ys <- mapM f l' ;; ret (y :: ys)
  end.

Definition elements (v : value) : list value :=
  match v with
  | VArr l => l
  | _ => []
  end.

(** The row built for one element of [orderData.items], lines 115 to 125. *)
Definition row_of (orderData it : value) : M (list value) :=
  now <- new_Date_toLocaleString ;;
  item <- lift (get it (js "item")) ;;
  quantity <- lift (get it (js "quantity")) ;;
  unit <- lift (get it (js "unit")) ;;
  price <- lift (get it (js "price")) ;;
  total_price <- lift (get it (js "total_price")) ;;
  customer_name <- lift (get orderData (js "customer_name")) ;;
  payment_mode <- lift (get it (js "payment_mode")) ;;
  ret [VStr now; item; quantity; unit; price; total_price; customer_name;
       VStr (js "Pending"); payment_mode].

Definition missing_message : response :=
  res_status_json 400
    (VObj [(js "error", VStr (js "Missing order message"))]).

Definition failed_to_parse : response :=
  res_status_json 500
    (VObj [(js "error",
            VStr (js "Failed to parse message into multiple items"))]).

Definition saved (orderData : value) : response :=
  res_json
    (VObj [(js "success", VBool true);
           (js "order", orderData);
           (js "message", VStr (js "Multiple items saved successfully!"))]).

Definition internal_error (e : error) : response :=
  res_status_json 500
    (VObj [(js "success", VBool false);
           (js "error", VStr (error_message e))]).

(** An order without items: [{"customer_name":"A","items":[]}]. *)
Definition empty_order : value :=
  VObj [(js "customer_name", VStr (js "A")); (js "items", VArr [])].

(** [app.post("/orders", ...)], [req_body] being [req.body]. *)
Definition post_orders (req_body : value) : M response :=
  try_catch
    (message <- lift (get req_body (js "message")) ;;
     if negb (truthy message) then ret missing_message
     else
       orderData <- extractOrder message ;;
       if negb (truthy orderData) then ret failed_to_parse
       else
         items <- lift (get orderData (js "items")) ;;
         if negb (truthy items) || negb (isArray items)
         then ret failed_to_parse
         else
           call_getClient ;;
           values <- mapM (row_of orderData) (elements items) ;;
           call_valuesAppend (js "Orders!A:J") (js "USER_ENTERED") values ;;
           ret (saved orderData))
    (fun e => emit (ConsoleError e) ;; ret (internal_error e)).

(** [row[i]] *)
Definition cell (row : list value) (i : nat) : value := nth i row VUndefined.

(** The record of one row, lines 157 to 168; [index] is the position in
    [rows.slice(1)]. *)
Definition format_row (row : list value) (index : nat) : value :=
  VObj [(js "id", VNum (number_of_nat (index + 1)));
        (js "datetime", or_else (cell row 1) (VStr []));
        (js "item", or_else (cell row 2) (VStr []));
        (js "quantity", or_else (cell row 3) (VStr []));
        (js "unit", or_else (cell row 4) (VStr []));
        (js "price", or_else (cell row 5) (VStr []));
        (js "total_price", or_else (cell row 6) (VStr []));
        (js "customer_name", or_else (cell row 7) (VStr []));
        (js "status", or_else (cell row 8) (VStr []));
        (js "payment_mode", or_else (cell row 9) (VStr []))].

(** The columns [format_row] reads each field from. *)
Definition read_columns : list (string * nat) :=
  [("datetime", 1); ("item", 2); ("quantity", 3); ("unit", 4); ("price", 5);
   ("total_price", 6); ("customer_name", 7); ("status", 8);
   ("payment_mode", 9)]%string.

(** [l.map((x, index) => f(x, index))], counting from [index]. *)
Fixpoint map_index {A B} (f : A -> nat -> B) (index : nat) (l : list A)
  : list B :=
  match l with
  | [] => []
  | x :: l' => f x index :: map_index f (S index) l'
  end.

Definition formatted (rows : list (list value)) : list value :=
  map_index format_row 0 (tl rows).

Definition listed (orders : list value) : response :=
  res_json (VObj [(js "success", VBool true); (js "orders", VArr orders)]).

(** [app.get("/orders", ...)] *)
Definition get_orders : M response :=
  try_catch
    (call_getClient ;;
     rows <- call_valuesGet (js "Orders!A:J") ;;
     match rows with
     | None | Some [] => ret (listed [])
     | Some rows => ret (listed (formatted rows))
     end)
    (fun e => emit (ConsoleError e) ;; ret (internal_error e)).

End Program.

(** ** An engine to run examples on

    Numbers as their decimal text. It agrees with a JavaScript engine on the
    integer literals written without sign, fraction or exponent below 2^53,
    the only numbers the examples contain. *)

Definition decimal_of_nat (n : nat) : jsstring :=
  js (DecimalString.NilZero.string_of_uint (Nat.to_uint n)).

#[local] Instance ExampleEngine : Engine := {|
  number := jsstring;
  number_of_nat := decimal_of_nat;
  number_of_literal := fun lit => lit;
  number_is_falsy := fun lit => jsstring_eqb lit (js "0");
  number_to_string := fun lit => lit;
  TypeError_message := js "Cannot read properties of undefined";
  SyntaxError_message := js "Unexpected token in JSON"
|}.

#[local] Instance ExampleJSON : JSON := {| JSON_parse := parse_text |}.

(** A world whose completion service answers the [n]-th call with [gen n],
    whose storage accepts every call and holds [sheet]. *)
Definition example_world (gen : nat -> completion)
    (sheet : option (list (list value))) : World :=
  {| generateContent := fun n _ _ => gen n;
     getClient := fun _ => None;
     toLocaleString := fun _ => js "1/1/2025, 10:00:00 AM";
     valuesAppend := fun _ _ => None;
     valuesGet := fun _ => Ok sheet;
     SPREADSHEET_ID := VStr (js "sheet-1") |}.

Definition rate_limited : completion :=
  Rejected (ApiError (Some 429%N) (js "Too Many Requests")).

Definition member (k : string) (v : jsstring) : jsstring :=
  quoted (js k) ++ js ":" ++ v.

(** [{"customer_name":"A","items":[]}] *)
Definition empty_order_text : jsstring :=
  js "{" ++ member "customer_name" (quoted (js "A")) ++ js ","
         ++ member "items" (js "[]") ++ js "}".

(** [{"customer_name":"A","payment_mode":"UPI","items":[{"item":"chicken",
    "quantity":2,"unit":"kg","price":180,"total_price":360}]}] *)
Definition upi_order_text : jsstring :=
  js "{" ++ member "customer_name" (quoted (js "A")) ++ js ","
         ++ member "payment_mode" (quoted (js "UPI")) ++ js ","
         ++ member "items"
              (js "[{" ++ member "item" (quoted (js "chicken")) ++ js ","
                       ++ member "quantity" (js "2") ++ js ","
                       ++ member "unit" (quoted (js "kg")) ++ js ","
                       ++ member "price" (js "180") ++ js ","
                       ++ member "total_price" (js "360") ++ js "}]")
         ++ js "}".

Definition fenced (content : jsstring) : jsstring :=
  js "```json" ++ newline :: content ++ newline :: js "```".

(** [[{"a":"b"}]] and [[{"a":"b"},{"c":"d"}]] *)
Definition one_object_array_text : jsstring :=
  js "[{" ++ member "a" (quoted (js "b")) ++ js "}]".
Definition two_object_array_text : jsstring :=
  js "[{" ++ member "a" (quoted (js "b")) ++ js "},{"
          ++ member "c" (quoted (js "d")) ++ js "}]".

Definition order_request : value :=
  VObj [(js "message", VStr (js "2 kg chicken for A, paid by UPI"))].

Definition header_row : list value :=
  map (fun s => VStr (js s))
      ["Date"; "Item"; "Quantity"; "Unit"; "Price"; "Total"; "Customer";
       "Status"; "Payment"]%string.

(** A row in the layout of [row_of], as the sheet gives it back. *)
Definition stored_row : list value :=
  map (fun s => VStr (js s))
      ["1/1/2025, 10:00:00 AM"; "chicken"; "2"; "kg"; "180"; "360"; "A";
       "Pending"; "Cash"]%string.

Definition field (k v : string) : jsstring * value := (js k, VStr (js v)).

(** A world like [example_world] whose storage answers as given: [client]
    to getting the client, [append] to an append call, [sheet] to reading the
    range. *)
Definition example_world_with (gen : nat -> completion)
    (client append : option error)
    (sheet : result (option (list (list value)))) : World :=
  {| generateContent := fun n _ _ => gen n;
     getClient := fun _ => client;
     toLocaleString := fun _ => js "1/1/2025, 10:00:00 AM";
     valuesAppend := fun _ _ => append;
     valuesGet := fun _ => sheet;
     SPREADSHEET_ID := VStr (js "sheet-1") |}.

Definition storage_down : error :=
  ApiError (Some 503%N) (js "The service is currently unavailable.").

(** What [upi_order_text] parses to. *)
Definition upi_order : value :=
  VObj [field "customer_name" "A";
        field "payment_mode" "UPI";
        (js "items",
         VArr [VObj [field "item" "chicken";
                     (js "quantity", VNum (js "2"));
                     field "unit" "kg";
                     (js "price", VNum (js "180"));
                     (js "total_price", VNum (js "360"))]])].


(** The code-fence marker. *)
Definition fence : jsstring := [backtick; backtick; backtick].

(** ** Vocabulary for the further properties *)

Section Vocabulary.

Context {Eng : Engine} {Json : JSON}.
Variable W : World.

(** What the [try] block makes of the answer to call number [n]. *)
Definition attempt_result (p : jsstring) (n : nat) : result value :=
  match generateContent W n model p with
  | Generated t =>
      match JSON_parse (cleanJson t) with
      | Some v => Ok v
      | None => Throw SyntaxError
      end
  | Unreadable => Throw TypeError
  | Rejected e => Throw e
  end.

(** The results after which the loop goes round again. *)
Definition retried (r : result value) : bool :=
  match r with
  | Ok _ => false
  | Throw e => is_rate_limit e
  end.

(** The events of one rate-limited iteration, and of [k] in a row. *)
Definition retry_block (p : jsstring) : trace :=
  [GenerateContent model p; ConsoleWarn; SetTimeout 5000].

Fixpoint retry_blocks (p : jsstring) (k : nat) : trace :=
  match k with
  | O => []
  | S k' => retry_block p ++ retry_blocks p k'
  end.

Definition is_loop_event (e : event) : bool :=
  match e with
  | GenerateContent _ _ | ConsoleWarn | SetTimeout _ => true
  | _ => false
  end.

Definition nullish (v : value) : bool :=
  match v with
  | VUndefined | VNull => true
  | _ => false
  end.

(** [v.k] where it does not throw. *)
Definition prop (v : value) (k : jsstring) : value :=
  match v with
  | VObj fields => lookup k fields
  | _ => VUndefined
  end.

(** The cells of the row of one item, [now] being the time stamp read for
    it. *)
Definition row_cells (now : jsstring) (orderData it : value) : list value :=
  [VStr now; prop it (js "item"); prop it (js "quantity");
   prop it (js "unit"); prop it (js "price"); prop it (js "total_price");
   prop orderData (js "customer_name"); VStr (js "Pending");
   prop it (js "payment_mode")].

(** The rows of the items [its], the clock having been read [n] times
    before. *)
Definition rows_of (orderData : value) (n : nat) (its : list value)
  : list (list value) :=
  map_index (fun it k => row_cells (toLocaleString W k) orderData it) n its.

(** The append call of the handler. *)
Definition append_event (values : list (list value)) : event :=
  ValuesAppend (SPREADSHEET_ID W) (js "Orders!A:J") (js "USER_ENTERED") values.

Definition get_event : event :=
  ValuesGet (SPREADSHEET_ID W) (js "Orders!A:J").

End Vocabulary.

(** The part of the prompt before the message. *)
Definition prompt_head : jsstring :=
  newline :: List.concat (map (fun line => line ++ [newline]) prompt_lines)
  ++ js "Message: " ++ [dquote].

(** ** The cleansing and the reference parser at work *)

Example trim_example :
  trim (js "  {}" ++ [newline; 160%N]) = js "{}".
Proof. reflexivity. Qed.

Example remove_all_example :
  remove_all (js "```") (remove_all (js "```json") (fenced (js "{}")))
  = [newline] ++ js "{}" ++ [newline].
Proof. reflexivity. Qed.

Example cleanJson_fenced_example :
  cleanJson (fenced empty_order_text) = empty_order_text.
Proof. reflexivity. Qed.

Example cleanJson_commentary_example :
  cleanJson (js "Here is the order: " ++ empty_order_text ++ js " Anything else?")
  = empty_order_text.
Proof. reflexivity. Qed.

Example cleanJson_no_braces_example :
  cleanJson (js " Sorry, no order here. ") = js "Sorry, no order here.".
Proof. reflexivity. Qed.

Example cleanJson_closing_brace_first_example :
  cleanJson (js "} then {") = js "} then {".
Proof. reflexivity. Qed.

Example parse_text_order_example :
  parse_text upi_order_text
  = Some (VObj [field "customer_name" "A";
                field "payment_mode" "UPI";
                (js "items",
                 VArr [VObj [field "item" "chicken";
                             (js "quantity", VNum (js "2"));
                             field "unit" "kg";
                             (js "price", VNum (js "180"));
                             (js "total_price", VNum (js "360"))]])]).
Proof. reflexivity. Qed.

Example parse_text_rejects_examples :
  map parse_text [js ""; js "{"; js "[1,]"; js "01"; js "{} {}";
                  js "Sorry, no order here."]
  = [None; None; None; None; None; None].
Proof. reflexivity. Qed.

Example parse_text_escapes_example :
  parse_text (quoted (js "a\u0041\n") ++ js "  ") = Some (VStr (js "aA" ++ [newline])).
Proof. reflexivity. Qed.

(** ** Properties of the string operations *)

Section Strings.


Lemma starts_with_app_l (p q s : jsstring) :
  starts_with (p ++ q) s = true -> starts_with p s = true.
Proof.
  revert s. induction p as [| a p IH]; intros s H; [reflexivity |].
  destruct s as [| c s]; simpl in *; [discriminate |].
  apply andb_true_iff in H. destruct H as [Hac Hrest].
  rewrite Hac. simpl. apply IH. exact Hrest.
Qed.

Lemma starts_with_app_r (p s w : jsstring) :
  starts_with p s = true -> starts_with p (s ++ w) = true.
Proof.
  revert s. induction p as [| a p IH]; intros s H; [reflexivity |].
  destruct s as [| c s]; simpl in *; [discriminate |].
  apply andb_true_iff in H. destruct H as [Hac Hrest].
  rewrite Hac. simpl. apply IH. exact Hrest.
Qed.

Lemma occurs_app_l (p q s : jsstring) :
  occurs (p ++ q) s = true -> occurs p s = true.
Proof.
  induction s as [| c s IH]; simpl; intros H.
  - apply (starts_with_app_l p q []). exact H.
  - apply orb_true_iff in H. apply orb_true_iff. destruct H as [H | H].
    + left. apply (starts_with_app_l p q). exact H.
    + right. apply IH. exact H.
Qed.

Lemma occurs_suffix (p w s : jsstring) :
  occurs p s = true -> occurs p (w ++ s) = true.
Proof.
  intros H. induction w as [| c w IH]; simpl; [exact H |].
  rewrite IH. apply orb_true_r.
Qed.

Lemma occurs_prefix (p s w : jsstring) :
  occurs p s = true -> occurs p (s ++ w) = true.
Proof.
  induction s as [| c s IH]; simpl; intros H.
  - destruct p; [| discriminate]. destruct w; reflexivity.
  - apply orb_true_iff in H. apply orb_true_iff. destruct H as [H | H].
    + left. apply (starts_with_app_r p (c :: s) w). exact H.
    + right. apply IH. exact H.
Qed.

Lemma remove_all_absent (pat s : jsstring) :
  occurs pat s = false -> remove_all pat s = s.
Proof.
  unfold remove_all. induction s as [| c s IH]; simpl; intros H; [reflexivity |].
  apply orb_false_iff in H. destruct H as [Hhere Hlater].
  simpl in Hhere. rewrite Hhere. f_equal. apply IH. exact Hlater.
Qed.

(** A pattern that starts with a backtick matches nowhere inside a stretch
    free of backticks, so the scan copies the stretch. *)
Lemma remove_from_no_backtick (pat body rest : jsstring) :
  Forall (fun c => c <> backtick) body ->
  remove_from (backtick :: pat) 0 (body ++ rest)
  = body ++ remove_from (backtick :: pat) 0 rest.
Proof.
  induction 1 as [| c body Hc _ IH]; [reflexivity |].
  cbn [app remove_from starts_with].
  destruct (N.eqb_spec backtick c) as [Heq | _]; [congruence |].
  simpl. f_equal. exact IH.
Qed.

Lemma trimStart_suffix (s : jsstring) :
  exists w, s = w ++ trimStart s /\ all_space w.
Proof.
  induction s as [| c s [w [Hs Hw]]]; simpl.
  - exists []. split; [reflexivity | constructor].
  - destruct (is_js_space c) eqn:Hc.
    + exists (c :: w). split; [simpl; f_equal; exact Hs |].
      constructor; assumption.
    + exists []. split; [reflexivity | constructor].
Qed.

Lemma trimStart_spaces (w x : jsstring) :
  all_space w -> trimStart (w ++ x) = trimStart x.
Proof.
  induction 1 as [| c w Hc _ IH]; [reflexivity |].
  simpl. rewrite Hc. exact IH.
Qed.

Lemma trimEnd_prefix (s : jsstring) :
  exists w, s = trimEnd s ++ w /\ all_space w.
Proof.
  unfold trimEnd. destruct (trimStart_suffix (rev s)) as [w [Hs Hw]].
  exists (rev w). split.
  - rewrite <- rev_app_distr, <- Hs, rev_involutive. reflexivity.
  - apply Forall_rev. exact Hw.
Qed.

Lemma trimEnd_spaces (x w : jsstring) :
  all_space w -> trimEnd (x ++ w) = trimEnd x.
Proof.
  intros Hw. unfold trimEnd. rewrite rev_app_distr.
  rewrite trimStart_spaces; [reflexivity | apply Forall_rev; exact Hw].
Qed.

(** Trimming leaves what lies between the surrounding white space, when that
    starts and ends with something else. *)
Lemma trim_between (w1 : jsstring) (a : N) (x w2 : jsstring) :
  all_space w1 -> all_space w2 ->
  is_js_space a = false ->
  trimStart (rev (a :: x)) = rev (a :: x) ->
  trim (w1 ++ (a :: x) ++ w2) = a :: x.
Proof.
  intros H1 H2 Hhead Hlast. unfold trim.
  rewrite trimStart_spaces by exact H1.
  assert (Hx : trimStart ((a :: x) ++ w2) = (a :: x) ++ w2).
  { simpl. rewrite Hhead. reflexivity. }
  rewrite Hx, trimEnd_spaces by exact H2.
  unfold trimEnd. rewrite Hlast. apply rev_involutive.
Qed.

Lemma trim_braced (mid : jsstring) :
  trim (ch "{" :: mid ++ [ch "}"]) = ch "{" :: mid ++ [ch "}"].
Proof.
  assert (H := trim_between [] (ch "{") (mid ++ [ch "}"]) []).
  simpl in H. rewrite app_nil_r in H. apply H; try constructor.
  rewrite rev_app_distr. reflexivity.
Qed.

Lemma upto_last_end (c : N) (s : jsstring) :
  upto_last c (s ++ [c]) = Some (s ++ [c]).
Proof.
  induction s as [| x s IH]; simpl.
  - rewrite N.eqb_refl. reflexivity.
  - rewrite IH. reflexivity.
Qed.

Lemma upto_last_absent (c : N) (s : jsstring) :
  ~ In c s -> upto_last c s = None.
Proof.
  induction s as [| x s IH]; simpl; intros H; [reflexivity |].
  rewrite IH by tauto.
  destruct (N.eqb_spec x c) as [Heq | _]; [tauto | reflexivity].
Qed.

Lemma upto_last_app (c : N) (s post : jsstring) :
  ~ In c post -> upto_last c (s ++ c :: post) = Some (s ++ [c]).
Proof.
  intros H. induction s as [| x s IH]; simpl.
  - rewrite upto_last_absent by exact H. rewrite N.eqb_refl. reflexivity.
  - rewrite IH. reflexivity.
Qed.

Lemma from_first_absent (c : N) (s : jsstring) :
  ~ In c s -> from_first c s = None.
Proof.
  induction s as [| x s IH]; simpl; intros H; [reflexivity |].
  destruct (N.eqb_spec x c) as [Heq | _]; [tauto |]. apply IH. tauto.
Qed.

Lemma from_first_app (c : N) (pre s : jsstring) :
  ~ In c pre -> from_first c (pre ++ c :: s) = Some (c :: s).
Proof.
  induction pre as [| x pre IH]; simpl; intros H.
  - rewrite N.eqb_refl. reflexivity.
  - destruct (N.eqb_spec x c) as [Heq | _]; [tauto |]. apply IH. tauto.
Qed.

(** The match runs from the first opening brace to the last closing one. *)
Lemma match_braces_span (pre mid post : jsstring) :
  ~ In (ch "{") pre -> ~ In (ch "}") post ->
  match_braces (pre ++ ch "{" :: mid ++ ch "}" :: post)
  = Some (ch "{" :: mid ++ [ch "}"]).
Proof.
  intros Hpre Hpost. unfold match_braces.
  rewrite from_first_app by exact Hpre.
  change (ch "{" :: mid ++ ch "}" :: post)
    with ((ch "{" :: mid) ++ ch "}" :: post).
  rewrite upto_last_app by exact Hpost. reflexivity.
Qed.

Lemma match_braces_braced (mid : jsstring) :
  match_braces (ch "{" :: mid ++ [ch "}"]) = Some (ch "{" :: mid ++ [ch "}"]).
Proof.
  apply (match_braces_span [] mid []); simpl; tauto.
Qed.

(** No match when there is no opening brace, or no closing one. *)
Lemma match_braces_none (s : jsstring) :
  ~ In (ch "{") s \/ ~ In (ch "}") s -> match_braces s = None.
Proof.
  intros [H | H]; unfold match_braces.
  - rewrite from_first_absent by exact H. reflexivity.
  - destruct (from_first (ch "{") s) as [t |] eqn:Ht; [| reflexivity].
    apply upto_last_absent. intros Hin. apply H.
    clear H. revert Ht.
    induction s as [| x s IH]; cbn [from_first]; [discriminate |].
    destruct (N.eqb x (ch "{")); intros Ht.
    + injection Ht as <-. exact Hin.
    + right. apply IH. exact Ht.
Qed.

End Strings.

(** ** Properties of the cleansing step *)

Section Cleansing.


Lemma cleanJson_eq (t : jsstring) :
  cleanJson t = match match_braces (stripped t) with
                | Some m => m
                | None => stripped t
                end.
Proof. reflexivity. Qed.

Lemma occurs_trim (pat s : jsstring) :
  occurs pat s = false -> occurs pat (trim s) = false.
Proof.
  intros H. destruct (occurs pat (trim s)) eqn:Ho; [| reflexivity].
  rewrite <- H. symmetry.
  destruct (trimStart_suffix s) as [w1 [Hs _]].
  destruct (trimEnd_prefix (trimStart s)) as [w2 [He _]].
  rewrite Hs, He. apply occurs_suffix, occurs_prefix. exact Ho.
Qed.

(** A response without fence markers that is, once trimmed, one braced block
    is parsed as it stands. *)
Lemma cleanJson_unfenced (t mid : jsstring) :
  occurs (js "```") t = false ->
  trim t = ch "{" :: mid ++ [ch "}"] ->
  cleanJson t = trim t.
Proof.
  intros Hfence Hshape. rewrite cleanJson_eq. unfold stripped.
  assert (H3 : occurs (js "```") (trim t) = false) by (apply occurs_trim; exact Hfence).
  assert (H7 : occurs (js "```json") (trim t) = false).
  { destruct (occurs (js "```json") (trim t)) eqn:Ho; [| reflexivity].
    rewrite <- H3. symmetry. apply (occurs_app_l (js "```") (js "json")).
    exact Ho. }
  rewrite (remove_all_absent _ _ H7), (remove_all_absent _ _ H3).
  rewrite Hshape, trim_braced.
  rewrite match_braces_braced. reflexivity.
Qed.

(** A response that is one fenced block, white space around it allowed, whose
    content has no backtick and is, once trimmed, one braced block: the
    fences go and the content is parsed. *)
Lemma cleanJson_fenced (w1 body w2 mid : jsstring) :
  all_space w1 -> all_space w2 ->
  Forall (fun c => c <> backtick) body ->
  trim body = ch "{" :: mid ++ [ch "}"] ->
  cleanJson (w1 ++ js "```json" ++ body ++ js "```" ++ w2) = trim body.
Proof.
  intros H1 H2 Hbody Hshape. rewrite cleanJson_eq. unfold stripped.
  assert (Htrim : trim (w1 ++ js "```json" ++ body ++ js "```" ++ w2)
                  = js "```json" ++ body ++ js "```").
  { replace (js "```json" ++ body ++ js "```" ++ w2)
      with ((backtick :: js "``json" ++ body ++ js "```") ++ w2)
      by (simpl; rewrite <- app_assoc; reflexivity).
    apply trim_between; try assumption; [reflexivity |].
    change (backtick :: js "``json" ++ body ++ js "```")
      with (js "```json" ++ body ++ js "```").
    rewrite !rev_app_distr. reflexivity. }
  rewrite Htrim.
  assert (H7 : remove_all (js "```json") (js "```json" ++ body ++ js "```")
               = body ++ js "```").
  { unfold remove_all. cbn -[app].
    change (remove_from (js "```json") 0 (body ++ js "```")
            = body ++ js "```").
    change (js "```json") with (backtick :: js "``json").
    rewrite remove_from_no_backtick by exact Hbody. reflexivity. }
  rewrite H7.
  assert (H3 : remove_all (js "```") (body ++ js "```") = body).
  { unfold remove_all. change (js "```") with (backtick :: js "``") at 1.
    rewrite remove_from_no_backtick by exact Hbody.
    cbn. apply app_nil_r. }
  rewrite H3, Hshape.
  rewrite match_braces_braced. reflexivity.
Qed.

End Cleansing.

(** ** Properties of the retry loop *)

Section Extraction.

Context {Eng : Engine} {Json : JSON}.
Variable W : World.


Lemma count_app (p : event -> bool) (tr tr' : trace) :
  count p (tr ++ tr') = count p tr + count p tr'.
Proof. unfold count. rewrite filter_app, length_app. reflexivity. Qed.

Lemma attempt_eq (p : jsstring) (tr : trace) :
  attempt W p tr =
    (match generateContent W (calls tr) model p with
     | Generated t =>
         match JSON_parse (cleanJson t) with
         | Some v => Ok v
         | None => Throw SyntaxError
         end
     | Unreadable => Throw TypeError
     | Rejected e => Throw e
     end,
     tr ++ [GenerateContent model p]).
Proof.
  unfold attempt, bind, call_generateContent, calls.
  destruct (generateContent W _ model p) as [t | | e]; try reflexivity.
  destruct (JSON_parse (cleanJson t)); reflexivity.
Qed.

(** The loop, one iteration unfolded. *)
Lemma retry_loop_eq (p : jsstring) (attempts : nat) (tr : trace) :
  retry_loop W p attempts tr =
    if lt_dec attempts 3 then
      match attempt W p tr with
      | (Ok v, tr1) => (Ok v, tr1)
      | (Throw e, tr1) =>
          if is_rate_limit e
          then retry_loop W p (S attempts) (tr1 ++ [ConsoleWarn; SetTimeout 5000])
          else (Throw e, tr1)
      end
    else (Throw exhausted, tr).
Proof.
  simp retry_loop.
  destruct (lt_dec attempts 3) as [Hlt | Hge]; simpl; [| reflexivity].
  destruct (attempt W p tr) as [[v | e] tr1]; simpl; [reflexivity |].
  destruct (is_rate_limit e); reflexivity.
Qed.
(** One rate-limited iteration: the call, the warning, the wait, and the
    counter goes up. *)
Lemma retry_loop_rate_limited (p : jsstring) (attempts : nat) (tr : trace)
    (e : error) :
  attempts < 3 ->
  generateContent W (calls tr) model p = Rejected e ->
  is_rate_limit e = true ->
  retry_loop W p attempts tr =
    retry_loop W p (S attempts)
      (tr ++ [GenerateContent model p; ConsoleWarn; SetTimeout 5000]).
Proof.
  intros Hlt Hgen Hrl. rewrite retry_loop_eq.
  destruct (lt_dec attempts 3) as [_ | Hge]; [| contradiction].
  rewrite attempt_eq, Hgen, Hrl, <- app_assoc. reflexivity.
Qed.

(** An iteration that ends the loop: a parsed value is returned, any error
    other than a rate limit is thrown on. *)
Lemma retry_loop_exit (p : jsstring) (attempts : nat) (tr : trace)
    (r : result value) :
  attempts < 3 ->
  fst (attempt W p tr) = r ->
  match r with Ok _ => true | Throw e => negb (is_rate_limit e) end = true ->
  retry_loop W p attempts tr = (r, tr ++ [GenerateContent model p]).
Proof.
  intros Hlt Hr Hexit. rewrite retry_loop_eq.
  destruct (lt_dec attempts 3) as [_ | Hge]; [| contradiction].
  rewrite attempt_eq in *. simpl in Hr. rewrite Hr.
  destruct r as [v | e]; [reflexivity |].
  apply negb_true_iff in Hexit. rewrite Hexit. reflexivity.
Qed.

Lemma retry_loop_exhausted (p : jsstring) (attempts : nat) (tr : trace) :
  3 <= attempts -> retry_loop W p attempts tr = (Throw exhausted, tr).
Proof.
  intros Hge. rewrite retry_loop_eq.
  destruct (lt_dec attempts 3) as [Hlt | _]; [lia | reflexivity].
Qed.

(** From a counter value [attempts] the loop makes at most [3 - attempts]
    calls, and never waits more often than it calls. *)
Lemma retry_loop_bound (p : jsstring) (k attempts : nat) (tr : trace) :
  3 - attempts = k ->
  exists tr', snd (retry_loop W p attempts tr) = tr ++ tr'
              /\ calls tr' <= k /\ sleeps tr' <= calls tr'.
Proof.
  revert attempts tr. induction k as [| k IH]; intros attempts tr Hk.
  - rewrite retry_loop_exhausted by lia. exists []. simpl.
    rewrite app_nil_r. repeat split; unfold calls, sleeps, count; simpl; lia.
  - assert (Hlt : attempts < 3) by lia.
    rewrite retry_loop_eq.
    destruct (lt_dec attempts 3) as [_ | Hge]; [| contradiction].
    rewrite attempt_eq.
    set (r := match generateContent W (calls tr) model p with
              | Generated t => _ | Unreadable => _ | Rejected e => _ end).
    destruct r as [v | e].
    + exists [GenerateContent model p]. simpl.
      repeat split; unfold calls, sleeps, count; simpl; lia.
    + destruct (is_rate_limit e).
      * destruct (IH (S attempts)
                    ((tr ++ [GenerateContent model p])
                       ++ [ConsoleWarn; SetTimeout 5000]))
          as [tr' [Htr [Hc Hs]]]; [lia |].
        exists ([GenerateContent model p; ConsoleWarn; SetTimeout 5000] ++ tr').
        rewrite Htr, <- !app_assoc. split; [reflexivity |].
        unfold calls, sleeps in *. rewrite !count_app.
        change (count is_GenerateContent
                  [GenerateContent model p; ConsoleWarn; SetTimeout 5000])
          with 1.
        change (count is_SetTimeout
                  [GenerateContent model p; ConsoleWarn; SetTimeout 5000])
          with 1.
        lia.
      * exists [GenerateContent model p]. simpl.
        repeat split; unfold calls, sleeps, count; simpl; lia.
Qed.

End Extraction.

(** ** extractOrder: retry, exhaustion, immediate failure, cleansing *)

Section ExtractOrder.

Context {Eng : Engine} {Json : JSON}.
Variable W : World.

Lemma extractOrder_eq (message : value) (text : jsstring) (tr : trace) :
  ToString message = Ok text ->
  extractOrder W message tr = retry_loop W (prompt text) 0 tr.
Proof.
  intros Hs. unfold extractOrder, bind, lift. rewrite Hs. reflexivity.
Qed.


(** C3. When the completion service answers every call with a rate-limit
    error, [extractOrder] calls it exactly three times, warns and waits
    5000 ms after each call (so also between one call and the next), and then
    throws the exhaustion error. *)
Theorem extractOrder_rate_limited_every_call
    (message : value) (text : jsstring) (tr : trace) :
  ToString message = Ok text ->
  (forall n, exists e,
      generateContent W n model (prompt text) = Rejected e
      /\ is_rate_limit e = true) ->
  let call := GenerateContent model (prompt text) in
  let made := [call; ConsoleWarn; SetTimeout 5000;
               call; ConsoleWarn; SetTimeout 5000;
               call; ConsoleWarn; SetTimeout 5000] in
  extractOrder W message tr = (Throw exhausted, tr ++ made)
  /\ calls made = 3.
Proof.
  intros Hs Hall call made. split; [| reflexivity].
  rewrite (extractOrder_eq _ _ _ Hs).
  destruct (Hall (calls tr)) as [e1 [H1 L1]].
  rewrite (retry_loop_rate_limited W _ _ _ e1) by (lia || assumption).
  set (tr1 := tr ++ _).
  destruct (Hall (calls tr1)) as [e2 [H2 L2]].
  rewrite (retry_loop_rate_limited W _ _ _ e2) by (lia || assumption).
  set (tr2 := tr1 ++ _).
  destruct (Hall (calls tr2)) as [e3 [H3 L3]].
  rewrite (retry_loop_rate_limited W _ _ _ e3) by (lia || assumption).
  rewrite retry_loop_exhausted by lia.
  subst tr2 tr1 made call. rewrite <- !app_assoc. reflexivity.
Qed.

(** C6. When the first call fails with anything but a rate-limit error (the
    service rejects with another error, the response has no text to read, or
    the cleansed text does not parse), [extractOrder] throws that error at
    once: one call, no warning, no wait. *)
Theorem extractOrder_fails_immediately
    (message : value) (text : jsstring) (tr : trace) (e : error) :
  ToString message = Ok text ->
  (generateContent W (calls tr) model (prompt text) = Rejected e
   /\ is_rate_limit e = false)
  \/ (generateContent W (calls tr) model (prompt text) = Unreadable
      /\ e = TypeError)
  \/ (exists t, generateContent W (calls tr) model (prompt text) = Generated t
                /\ JSON_parse (cleanJson t) = None /\ e = SyntaxError) ->
  extractOrder W message tr
  = (Throw e, tr ++ [GenerateContent model (prompt text)])
  /\ calls [GenerateContent model (prompt text)] = 1
  /\ sleeps [GenerateContent model (prompt text)] = 0.
Proof.
  intros Hs Hfail. split; [| split; reflexivity].
  rewrite (extractOrder_eq _ _ _ Hs).
  apply retry_loop_exit; [lia | |].
  - rewrite attempt_eq. simpl.
    destruct Hfail as [[Hgen _] | [[Hgen ->] | [t [Hgen [Hparse ->]]]]];
      rewrite Hgen; try reflexivity.
    rewrite Hparse. reflexivity.
  - destruct Hfail as [[_ Hrl] | [[_ ->] | [t [_ [_ ->]]]]];
      [rewrite Hrl |..]; reflexivity.
Qed.


(** C10. [extractOrder] is a total function of the message, the trace so far
    and the answers of the outside world: whatever the completion service
    answers, it ends in a returned value or a thrown error after at most
    three calls (and no more waits than calls). The same holds from any value
    of the counter: the loop entered with [attempts] makes at most
    [3 - attempts] calls. *)
Theorem extractOrder_terminates (message : value) (tr : trace) :
  (exists r tr',
      extractOrder W message tr = (r, tr ++ tr')
      /\ calls tr' <= 3 /\ sleeps tr' <= calls tr')
  /\ (forall p attempts tr0, exists r tr',
         retry_loop W p attempts tr0 = (r, tr0 ++ tr')
         /\ calls tr' <= 3 - attempts).
Proof.
  assert (Hloop : forall p attempts tr0, exists r tr',
             retry_loop W p attempts tr0 = (r, tr0 ++ tr')
             /\ calls tr' <= 3 - attempts /\ sleeps tr' <= calls tr').
  { intros p attempts tr0.
    destruct (retry_loop_bound W p (3 - attempts) attempts tr0 eq_refl)
      as [tr' [Htr Hb]].
    exists (fst (retry_loop W p attempts tr0)), tr'.
    rewrite <- Htr. split; [apply surjective_pairing | exact Hb]. }
  split.
  - unfold extractOrder, bind, lift.
    destruct (ToString message) as [text | e].
    + destruct (Hloop (prompt text) 0 tr) as [r [tr' [Hr Hb]]].
      exists r, tr'. split; [exact Hr | exact Hb].
    + exists (Throw e), []. rewrite app_nil_r.
      split; [reflexivity | split; unfold calls, sleeps, count; simpl; lia].
  - intros p attempts tr0.
    destruct (Hloop p attempts tr0) as [r [tr' [Hr [Hc _]]]].
    exists r, tr'. split; assumption.
Qed.

End ExtractOrder.

Section ExtractOrderCleansing.

Context {Eng : Engine} {Json : JSON}.
Variable W : World.

(** C5, as the code has it. The text of the response is trimmed, every
    [```json] and then every [```] is removed, and it is trimmed again. When
    an opening brace is followed by a closing one, the candidate is the
    stretch from the first opening to the last closing brace; without braces
    it is the whole stripped text. [extractOrder] returns exactly what
    [JSON.parse] makes of the candidate and throws its error when it makes
    nothing of it, on the first call as on a later one. In particular, a response without fence markers that is
    one braced block once trimmed, and a response that fences such a block,
    are parsed as that block. *)
Theorem extractOrder_parses_cleansed_text
    (message : value) (text : jsstring) (tr : trace) (t : jsstring) :
  ToString message = Ok text ->
  generateContent W (calls tr) model (prompt text) = Generated t ->
  (forall pre mid post,
      stripped t = pre ++ ch "{" :: mid ++ ch "}" :: post ->
      ~ In (ch "{") pre -> ~ In (ch "}") post ->
      cleanJson t = ch "{" :: mid ++ [ch "}"])
  /\ (~ In (ch "{") (stripped t) \/ ~ In (ch "}") (stripped t) ->
      cleanJson t = stripped t)
  /\ extractOrder W message tr
     = (match JSON_parse (cleanJson t) with
        | Some v => Ok v
        | None => Throw SyntaxError
        end,
        tr ++ [GenerateContent model (prompt text)])
  /\ (forall attempts tr0,
         attempts < 3 ->
         generateContent W (calls tr0) model (prompt text) = Generated t ->
         retry_loop W (prompt text) attempts tr0
         = (match JSON_parse (cleanJson t) with
            | Some v => Ok v
            | None => Throw SyntaxError
            end,
            tr0 ++ [GenerateContent model (prompt text)]))
  /\ (forall mid,
         occurs (js "```") t = false ->
         trim t = ch "{" :: mid ++ [ch "}"] ->
         cleanJson t = trim t)
  /\ (forall w1 body w2 mid,
         t = w1 ++ js "```json" ++ body ++ js "```" ++ w2 ->
         all_space w1 -> all_space w2 ->
         Forall (fun c => c <> backtick) body ->
         trim body = ch "{" :: mid ++ [ch "}"] ->
         cleanJson t = trim body).
Proof.
  intros Hs Hgen. repeat split.
  - intros pre mid post Hshape Hpre Hpost.
    rewrite cleanJson_eq, Hshape, match_braces_span by assumption.
    reflexivity.
  - intros Hnone. rewrite cleanJson_eq, match_braces_none by exact Hnone.
    reflexivity.
  - rewrite (extractOrder_eq W _ _ _ Hs).
    apply retry_loop_exit; [lia | |].
    + rewrite attempt_eq, Hgen. reflexivity.
    + destruct (JSON_parse (cleanJson t)); reflexivity.
  - intros attempts tr0 Hlt Hgen0.
    apply retry_loop_exit; [exact Hlt | |].
    + rewrite attempt_eq, Hgen0. reflexivity.
    + destruct (JSON_parse (cleanJson t)); reflexivity.
  - intros mid. apply cleanJson_unfenced.
  - intros w1 body w2 mid ->. apply cleanJson_fenced.
Qed.

End ExtractOrderCleansing.

(** ** The handlers *)

Section Handlers.

Context {Eng : Engine} {Json : JSON}.
Variable W : World.



(** The row of an item that is an object, in an order that is an object:
    every cell but the time stamp, the customer name and the status is read
    from the item. *)
Lemma row_of_objects (order_fields item_fields : list (jsstring * value))
    (tr : trace) :
  row_of W (VObj order_fields) (VObj item_fields) tr
  = (Ok [VStr (toLocaleString W (count is_NewDate tr));
         lookup (js "item") item_fields;
         lookup (js "quantity") item_fields;
         lookup (js "unit") item_fields;
         lookup (js "price") item_fields;
         lookup (js "total_price") item_fields;
         lookup (js "customer_name") order_fields;
         VStr (js "Pending");
         lookup (js "payment_mode") item_fields],
     tr ++ [NewDate]).
Proof. reflexivity. Qed.

(** C8. A request whose [message] is missing or falsy is answered with 400
    and an error object, and nothing else happens: the trace is unchanged, so
    there is no call to the completion service and none to storage. *)
Theorem post_orders_missing_message
    (req_body message : value) (tr : trace) :
  get req_body (js "message") = Ok message ->
  truthy message = false ->
  post_orders W req_body tr = (Ok missing_message, tr)
  /\ statusCode missing_message = 400%N
  /\ body missing_message
     = VObj [(js "error", VStr (js "Missing order message"))].
Proof.
  intros Hget Hfalsy. split; [| split; reflexivity].
  unfold post_orders, try_catch, bind, lift. rewrite Hget. simpl.
  rewrite Hfalsy. reflexivity.
Qed.

(** C4, as the code has it. A request whose message extracts to an order
    with an empty [items] array passes the check on [items], which asks for
    an array and not for a non-empty one: the handler makes one append call
    that carries no rows and, the storage calls succeeding, answers 200. *)
Theorem post_orders_empty_items
    (req_body message : value) (tr tr1 : trace) :
  get req_body (js "message") = Ok message ->
  truthy message = true ->
  extractOrder W message tr = (Ok empty_order, tr1) ->
  getClient W (count is_GetClient tr1) = None ->
  valuesAppend W (count is_ValuesAppend tr1) [] = None ->
  post_orders W req_body tr
  = (Ok (saved empty_order),
     tr1 ++ [GetClient;
             ValuesAppend (SPREADSHEET_ID W) (js "Orders!A:J")
                          (js "USER_ENTERED") []])
  /\ statusCode (saved empty_order) = 200%N.
Proof.
  intros Hget Htruthy Hextract Hclient Happend. split; [| reflexivity].
  unfold post_orders, try_catch, bind, lift. rewrite Hget. simpl.
  rewrite Htruthy. simpl. rewrite Hextract. simpl.
  unfold call_getClient. rewrite Hclient. simpl.
  unfold call_valuesAppend.
  rewrite count_app. change (count is_ValuesAppend [GetClient]) with 0.
  rewrite Nat.add_0_r, Happend, <- app_assoc. reflexivity.
Qed.

Lemma map_index_nth_error {A B : Type} (f : A -> nat -> B) (l : list A) :
  forall start i x,
    nth_error l i = Some x ->
    nth_error (map_index f start l) i = Some (f x (start + i)).
Proof.
  induction l as [| y l IH]; intros start i x Hx.
  - destruct i; discriminate.
  - destruct i as [| i]; simpl in *.
    + injection Hx as ->. rewrite Nat.add_0_r. reflexivity.
    + rewrite (IH (S start) i x Hx). f_equal. f_equal. lia.
Qed.

Lemma map_index_length {A B : Type} (f : A -> nat -> B) (l : list A) :
  forall start, List.length (map_index f start l) = List.length l.
Proof.
  induction l as [| y l IH]; intros start; simpl; [| rewrite IH]; reflexivity.
Qed.

Lemma cell_absent (row : list value) (i : nat) :
  List.length row <= i -> or_else (cell row i) (VStr []) = VStr [].
Proof.
  intros H. unfold cell. rewrite nth_overflow by exact H. reflexivity.
Qed.

(** C9. The read path succeeds on rows of any length: with the two storage
    calls answered, the handler answers with one record per row after the
    header, and in the record of a row every field whose column lies beyond
    the end of the row is the empty string. *)
Theorem get_orders_tolerates_short_rows
    (rows : list (list value)) (tr : trace) :
  getClient W (count is_GetClient tr) = None ->
  valuesGet W (count is_ValuesGet tr) = Ok (Some rows) ->
  get_orders W tr
  = (Ok (listed (formatted rows)),
     tr ++ [GetClient; ValuesGet (SPREADSHEET_ID W) (js "Orders!A:J")])
  /\ List.length (formatted rows) = List.length rows - 1
  /\ (forall i row,
         nth_error (tl rows) i = Some row ->
         nth_error (formatted rows) i = Some (format_row row i)
         /\ forall name column,
              In (name, column) read_columns ->
              List.length row <= column ->
              get (format_row row i) (js name) = Ok (VStr [])).
Proof.
  intros Hclient Hget. repeat split.
  - unfold get_orders, try_catch, bind, call_getClient, call_valuesGet.
    rewrite Hclient. simpl.
    rewrite count_app. change (count is_ValuesGet [GetClient]) with 0.
    rewrite Nat.add_0_r, Hget, <- app_assoc.
    destruct rows; reflexivity.
  - unfold formatted. rewrite map_index_length.
    destruct rows; simpl; lia.
  - unfold formatted. apply (map_index_nth_error format_row _ 0 i row H).
  - intros name column Hin Hshort. simpl in Hin.
    repeat (destruct Hin as [Hin | Hin];
            [injection Hin as <- <-; cbn [format_row get lookup];
             simpl jsstring_eqb; cbv iota;
             rewrite cell_absent by exact Hshort; reflexivity |]).
    contradiction.
Qed.

End Handlers.

(** ** Worked examples *)

(** C1, at a sheet of a header and one row. The write path puts the time
    stamp in column 0, the item name in column 1 and so on up to the payment
    mode in column 8; the read path reads [datetime] from column 1, [item]
    from column 2 and so on, and [payment_mode] from column 9, which a row of
    nine cells does not have. The one record has [id] 1 and every other field
    one column off. *)
Theorem get_orders_reads_one_column_off :
  get_orders (example_world (fun _ => Unreadable)
                            (Some [header_row; stored_row])) []
  = (Ok (listed
           [VObj [(js "id", VNum (js "1"));
                  field "datetime" "chicken";
                  field "item" "2";
                  field "quantity" "kg";
                  field "unit" "180";
                  field "price" "360";
                  field "total_price" "A";
                  field "customer_name" "Pending";
                  field "status" "Cash";
                  field "payment_mode" ""]]),
     [GetClient; ValuesGet (VStr (js "sheet-1")) (js "Orders!A:J")]).
Proof. vm_compute. reflexivity. Qed.

(** C2, at an order of one item paid by UPI. The handler builds one row for
    the item and sends it in one append call; the last cell of the row is the
    [payment_mode] of the item, which the item does not have, and not the
    [payment_mode] of the order. *)
Theorem post_orders_takes_payment_mode_from_item :
  let W := example_world (fun _ => Generated upi_order_text) None in
  exists orderData,
    JSON_parse upi_order_text = Some orderData
    /\ get orderData (js "payment_mode") = Ok (VStr (js "UPI"))
    /\ post_orders W order_request []
       = (Ok (saved orderData),
          [GenerateContent model
             (prompt (js "2 kg chicken for A, paid by UPI"));
           GetClient; NewDate;
           ValuesAppend (VStr (js "sheet-1")) (js "Orders!A:J")
             (js "USER_ENTERED")
             [[VStr (js "1/1/2025, 10:00:00 AM"); VStr (js "chicken");
               VNum (js "2"); VStr (js "kg"); VNum (js "180");
               VNum (js "360"); VStr (js "A"); VStr (js "Pending");
               VUndefined]]]).
Proof.
  eexists. split; [vm_compute; reflexivity |].
  split; vm_compute; reflexivity.
Qed.

Lemma extractOrder_rate_limited_every_call_witness :
  let W := example_world (fun _ => rate_limited) None in
  let call := GenerateContent model (prompt (js "2 kg chicken")) in
  extractOrder W (VStr (js "2 kg chicken")) []
  = (Throw exhausted,
     [call; ConsoleWarn; SetTimeout 5000;
      call; ConsoleWarn; SetTimeout 5000;
      call; ConsoleWarn; SetTimeout 5000]).
Proof.
  intros W call.
  apply (extractOrder_rate_limited_every_call
           W (VStr (js "2 kg chicken")) (js "2 kg chicken") []).
  - reflexivity.
  - intros n. exists (ApiError (Some 429%N) (js "Too Many Requests")).
    split; reflexivity.
Defined.

Lemma extractOrder_fails_immediately_witness :
  let W := example_world (fun _ => Generated (js "Sorry, no order here."))
                         None in
  extractOrder W (VStr (js "hello")) []
  = (Throw SyntaxError, [GenerateContent model (prompt (js "hello"))]).
Proof.
  intros W.
  apply (extractOrder_fails_immediately
           W (VStr (js "hello")) (js "hello") [] SyntaxError).
  - reflexivity.
  - right. right. exists (js "Sorry, no order here.").
    repeat split; vm_compute; reflexivity.
Defined.


Lemma extractOrder_parses_cleansed_text_witness :
  let W := example_world (fun _ => Generated (fenced empty_order_text))
                         None in
  cleanJson (fenced empty_order_text) = empty_order_text
  /\ extractOrder W (VStr (js "nothing for A")) []
     = (Ok empty_order,
        [GenerateContent model (prompt (js "nothing for A"))]).
Proof.
  intros W.
  destruct (extractOrder_parses_cleansed_text
              W (VStr (js "nothing for A")) (js "nothing for A") []
              (fenced empty_order_text) eq_refl eq_refl)
    as [_ [_ [Hparse [_ [_ Hfenced]]]]].
  split.
  - rewrite (Hfenced [] (newline :: empty_order_text ++ [newline]) []
               (tl (removelast empty_order_text))).
    + vm_compute. reflexivity.
    + reflexivity.
    + constructor.
    + constructor.
    + vm_compute. repeat (constructor; [discriminate |]). constructor.
    + vm_compute. reflexivity.
  - rewrite Hparse. vm_compute. reflexivity.
Defined.

Lemma post_orders_missing_message_witness :
  let W := example_world (fun _ => Unreadable) None in
  post_orders W (VObj [(js "message", VStr [])]) [] = (Ok missing_message, []).
Proof.
  intros W.
  apply (post_orders_missing_message W (VObj [(js "message", VStr [])])
           (VStr []) []); reflexivity.
Defined.

Lemma post_orders_empty_items_witness :
  let W := example_world (fun _ => Generated empty_order_text) None in
  post_orders W order_request []
  = (Ok (saved empty_order),
     [GenerateContent model (prompt (js "2 kg chicken for A, paid by UPI"));
      GetClient;
      ValuesAppend (VStr (js "sheet-1")) (js "Orders!A:J")
                   (js "USER_ENTERED") []]).
Proof.
  intros W.
  apply (post_orders_empty_items W order_request
           (VStr (js "2 kg chicken for A, paid by UPI")) []
           [GenerateContent model
              (prompt (js "2 kg chicken for A, paid by UPI"))]);
    vm_compute; reflexivity.
Defined.

Lemma get_orders_tolerates_short_rows_witness :
  let W := example_world (fun _ => Unreadable)
             (Some [header_row; [VStr (js "1/1/2025, 10:00:00 AM")]]) in
  get_orders W []
  = (Ok (listed [format_row [VStr (js "1/1/2025, 10:00:00 AM")] 0]),
     [GetClient; ValuesGet (VStr (js "sheet-1")) (js "Orders!A:J")])
  /\ get (format_row [VStr (js "1/1/2025, 10:00:00 AM")] 0) (js "item")
     = Ok (VStr []).
Proof.
  intros W.
  destruct (get_orders_tolerates_short_rows W
              [header_row; [VStr (js "1/1/2025, 10:00:00 AM")]] []
              eq_refl eq_refl) as [Hres [_ Hrows]].
  split; [exact Hres |].
  destruct (Hrows 0 [VStr (js "1/1/2025, 10:00:00 AM")] eq_refl)
    as [_ Hfields].
  apply (Hfields "item"%string 2); [simpl; tauto | simpl; lia].
Defined.

(** C4: with a completion service that answers with
    [{"customer_name":"A","items":[]}] and a storage that accepts every
    call, the message extracts to the empty order and the handler answers
    200, not 500. *)
Lemma post_orders_empty_items_is_accepted :
  let W := example_world (fun _ => Generated empty_order_text) None in
  fst (extractOrder W (VStr (js "2 kg chicken for A, paid by UPI")) [])
  = Ok empty_order
  /\ fst (post_orders W order_request []) = Ok (saved empty_order)
  /\ statusCode (saved empty_order) <> 500%N.
Proof.
  intros W. split; [vm_compute; reflexivity |].
  split; [vm_compute; reflexivity | discriminate].
Qed.

(** C5: a response that is valid JSON without fences, the array
    [[{"a":"b"}]], comes back as the object inside it and not as the array
    [JSON.parse] makes of the response; the fenced valid JSON
    [[{"a":"b"},{"c":"d"}]] does not parse at all, the candidate being the
    stretch from the first opening to the last closing brace. *)
Lemma extractOrder_array_responses :
  let object_ab := VObj [field "a" "b"] in
  let object_cd := VObj [field "c" "d"] in
  let W1 := example_world (fun _ => Generated one_object_array_text) None in
  let W2 := example_world
              (fun _ => Generated (fenced two_object_array_text)) None in
  (occurs (js "```") one_object_array_text = false
   /\ JSON_parse one_object_array_text = Some (VArr [object_ab])
   /\ fst (extractOrder W1 (VStr (js "hello")) []) = Ok object_ab
   /\ Ok object_ab <> Ok (VArr [object_ab]))
  /\ (JSON_parse two_object_array_text = Some (VArr [object_ab; object_cd])
      /\ fst (extractOrder W2 (VStr (js "hello")) []) = Throw SyntaxError).
Proof.
  intros object_ab object_cd W1 W2.
  repeat split; try (vm_compute; reflexivity).
  discriminate.
Qed.

(** ** Further properties of the retry loop *)

Section RetryRuns.

Context {Eng : Engine} {Json : JSON}.
Variable W : World.

Lemma attempt_is_result (p : jsstring) (tr : trace) :
  attempt W p tr
  = (attempt_result W p (calls tr), tr ++ [GenerateContent model p]).
Proof. apply attempt_eq. Qed.

Lemma retry_loop_goes_round (p : jsstring) (attempts : nat) (tr : trace) :
  attempts < 3 ->
  retried (attempt_result W p (calls tr)) = true ->
  retry_loop W p attempts tr
  = retry_loop W p (S attempts) (tr ++ retry_block p).
Proof.
  intros Hlt Hre. rewrite retry_loop_eq.
  destruct (lt_dec attempts 3) as [_ | Hge]; [| contradiction].
  rewrite attempt_is_result.
  destruct (attempt_result W p (calls tr)) as [v | e]; [discriminate |].
  simpl in Hre. rewrite Hre, <- app_assoc. reflexivity.
Qed.

Lemma retry_loop_leaves (p : jsstring) (attempts : nat) (tr : trace) :
  attempts < 3 ->
  retried (attempt_result W p (calls tr)) = false ->
  retry_loop W p attempts tr
  = (attempt_result W p (calls tr), tr ++ [GenerateContent model p]).
Proof.
  intros Hlt Hre. rewrite retry_loop_eq.
  destruct (lt_dec attempts 3) as [_ | Hge]; [| contradiction].
  rewrite attempt_is_result.
  destruct (attempt_result W p (calls tr)) as [v | e]; [reflexivity |].
  simpl in Hre. rewrite Hre. reflexivity.
Qed.

Lemma calls_retry_blocks (p : jsstring) (k : nat) (tr : trace) :
  calls (tr ++ retry_blocks p k) = calls tr + k.
Proof.
  unfold calls. rewrite count_app. f_equal.
  induction k as [| k IH]; [reflexivity |].
  cbn [retry_blocks]. rewrite count_app, IH. reflexivity.
Qed.

Lemma retry_blocks_snoc (p : jsstring) (k : nat) :
  retry_blocks p (S k) = retry_blocks p k ++ retry_block p.
Proof.
  induction k as [| k IH]; [reflexivity |].
  cbn [retry_blocks] in *. rewrite IH at 1. rewrite <- app_assoc. reflexivity.
Qed.

(** [k] rate-limited answers in a row take the loop [k] times round. *)
Lemma retry_loop_run (p : jsstring) (k : nat) :
  forall attempts tr,
    attempts + k <= 3 ->
    (forall i, i < k -> retried (attempt_result W p (calls tr + i)) = true) ->
    retry_loop W p attempts tr
    = retry_loop W p (attempts + k) (tr ++ retry_blocks p k).
Proof.
  induction k as [| k IH]; intros attempts tr Hle Hall.
  - rewrite Nat.add_0_r. simpl. rewrite app_nil_r. reflexivity.
  - rewrite IH by (lia || (intros i Hi; apply Hall; lia)).
    rewrite retry_loop_goes_round.
    + rewrite retry_blocks_snoc, <- app_assoc.
      replace (S (attempts + k)) with (attempts + S k) by lia. reflexivity.
    + lia.
    + rewrite calls_retry_blocks. apply Hall. lia.
Qed.

(** The length of the longest run of [true] from 0, cut at [m]. *)
Lemma first_false_below (f : nat -> bool) (m : nat) :
  exists k, k <= m /\ (forall i, i < k -> f i = true)
            /\ (k = m \/ f k = false).
Proof.
  induction m as [| m [k [Hle [Hall Hend]]]].
  - exists 0. repeat split; [lia | intros i Hi; lia | left; reflexivity].
  - destruct Hend as [-> | Hstop].
    + destruct (f m) eqn:Hm.
      * exists (S m). repeat split; [lia | | left; reflexivity].
        intros i Hi. destruct (Nat.eq_dec i m) as [-> | Hne];
          [exact Hm | apply Hall; lia].
      * exists m. repeat split; [lia | exact Hall | right; exact Hm].
    + exists k. repeat split; [lia | exact Hall | right; exact Hstop].
Qed.

(** Every run of the loop from the start: [k] rate-limited answers, then
    either the loop is exhausted ([k = 3]) or the answer to call [k] ends
    it. *)
Lemma retry_loop_shape (p : jsstring) (tr : trace) :
  exists k,
    k <= 3
    /\ (forall i, i < k -> retried (attempt_result W p (calls tr + i)) = true)
    /\ ((k = 3
         /\ retry_loop W p 0 tr = (Throw exhausted, tr ++ retry_blocks p 3))
        \/ (k < 3
            /\ retried (attempt_result W p (calls tr + k)) = false
            /\ retry_loop W p 0 tr
               = (attempt_result W p (calls tr + k),
                  tr ++ retry_blocks p k ++ [GenerateContent model p]))).
Proof.
  destruct (first_false_below
              (fun i => retried (attempt_result W p (calls tr + i))) 3)
    as [k [Hle [Hall Hend]]].
  exists k. split; [exact Hle |]. split; [exact Hall |].
  pose proof (retry_loop_run p k 0 tr Hle Hall) as Hrun. simpl in Hrun.
  destruct Hend as [-> | Hstop].
  - left. split; [reflexivity |].
    rewrite Hrun. apply retry_loop_exhausted. lia.
  - destruct (Nat.eq_dec k 3) as [-> | Hne].
    + left. split; [reflexivity |].
      rewrite Hrun. apply retry_loop_exhausted. lia.
    + right. split; [lia |]. split; [exact Hstop |].
      rewrite Hrun, retry_loop_leaves, calls_retry_blocks, <- app_assoc;
        [reflexivity | lia |].
      rewrite calls_retry_blocks. exact Hstop.
Qed.

(** Induction over values that reaches the elements of arrays. *)
Lemma value_array_ind (P : value -> Prop) :
  P VUndefined -> P VNull -> (forall b, P (VBool b)) ->
  (forall n, P (VNum n)) -> (forall s, P (VStr s)) ->
  (forall l, Forall P l -> P (VArr l)) ->
  (forall fields, P (VObj fields)) ->
  forall v, P v.
Proof.
  intros Hu Hn Hb Hnum Hs Ha Ho. fix IH 1. intros v.
  destruct v as [| | b | n | s | l | fields].
  - exact Hu.
  - exact Hn.
  - apply Hb.
  - apply Hnum.
  - apply Hs.
  - apply Ha. induction l as [| x l IHl]; constructor; [apply IH | exact IHl].
  - apply Ho.
Qed.

Lemma ToString_throws_TypeError :
  forall (v : value) (e : error), ToString v = Throw e -> e = TypeError.
Proof.
  induction v as [| | b | n | s | l IHl | fields] using value_array_ind;
    intros e; try discriminate.
  - destruct b; discriminate.
  - cbn [ToString].
    match goal with |- ?J l = _ -> _ => set (join := J) end.
    revert e. induction IHl as [| x l1 Hx0 _ IHl1]; intros e;
      [unfold join; discriminate |].
    set (elem := match x with
                 | VUndefined | VNull => Ok []
                 | _ => ToString x
                 end).
    assert (Hx : forall e0, elem = Throw e0 -> e0 = TypeError).
    { subst elem. intros e0 H. destruct x; try discriminate; apply (Hx0 _ H). }
    assert (Hunf : join (x :: l1)
                   = match l1 with
                     | [] => elem
                     | _ :: _ =>
                         rbind elem (fun a =>
                         rbind (join l1) (fun b => Ok (a ++ ch "," :: b)))
                     end).
    { destruct l1; reflexivity. }
    rewrite Hunf. clear Hunf.
    destruct l1 as [| y l2]; [apply Hx |].
    intros H. destruct elem as [a | ex]; cbn [rbind] in H.
    + destruct (join (y :: l2)) as [b | ej] eqn:Hj; [discriminate |].
      cbn [rbind] in H. injection H as <-. apply (IHl1 ej). reflexivity.
    + injection H as <-. apply (Hx _ eq_refl).
  - cbn [ToString].
    destruct (has_key (js "toString") fields); [| discriminate].
    intros H. injection H as <-. reflexivity.
Qed.

End RetryRuns.

(** ** Further properties of the cleansing step *)

Section CleansingMore.

Lemma remove_from_fence_cons (c : N) (s : jsstring) :
  N.eqb backtick c = false ->
  remove_from fence 0 (c :: s) = c :: remove_from fence 0 s.
Proof. intros H. cbn [remove_from starts_with fence]. rewrite H. reflexivity. Qed.

Lemma occurs_fence_cons (c : N) (s : jsstring) :
  N.eqb backtick c = false ->
  occurs fence (c :: s) = occurs fence s.
Proof. intros H. cbn [occurs starts_with fence]. rewrite H. reflexivity. Qed.

(** One pass of the removal leaves no fence marker behind: the backticks
    left over from a longer run are fewer than three. *)
Lemma remove_fence_bounded (n : nat) :
  forall s, List.length s <= n ->
            occurs fence (remove_from fence 0 s) = false.
Proof.
  induction n as [| n IH]; intros s Hlen.
  - destruct s; [reflexivity | simpl in Hlen; lia].
  - destruct s as [| c1 s1]; [reflexivity |]. simpl in Hlen.
    destruct (N.eqb backtick c1) eqn:E1.
    2:{ rewrite remove_from_fence_cons, occurs_fence_cons by exact E1.
        apply IH. lia. }
    apply N.eqb_eq in E1. subst c1.
    destruct s1 as [| c2 s2]; [reflexivity |]. simpl in Hlen.
    destruct (N.eqb backtick c2) eqn:E2.
    2:{ assert (H1 : remove_from fence 0 (backtick :: c2 :: s2)
                     = backtick :: c2 :: remove_from fence 0 s2).
        { cbn [remove_from starts_with fence]. rewrite E2.
          rewrite N.eqb_refl. cbn [andb]. reflexivity. }
        rewrite H1.
        assert (H2 : occurs fence (backtick :: c2 :: remove_from fence 0 s2)
                     = occurs fence (remove_from fence 0 s2)).
        { cbn [occurs starts_with fence]. rewrite E2, N.eqb_refl.
          reflexivity. }
        rewrite H2. apply IH. lia. }
    apply N.eqb_eq in E2. subst c2.
    destruct s2 as [| c3 s3]; [reflexivity |]. simpl in Hlen.
    destruct (N.eqb backtick c3) eqn:E3.
    + apply N.eqb_eq in E3. subst c3.
      change (remove_from fence 0 (backtick :: backtick :: backtick :: s3))
        with (remove_from fence 0 s3).
      apply IH. lia.
    + assert (H1 : remove_from fence 0 (backtick :: backtick :: c3 :: s3)
                   = backtick :: backtick :: c3 :: remove_from fence 0 s3).
      { cbn [remove_from starts_with fence]. rewrite E3, !N.eqb_refl.
        cbn [andb]. reflexivity. }
      rewrite H1.
      assert (H2 : occurs fence
                     (backtick :: backtick :: c3 :: remove_from fence 0 s3)
                   = occurs fence (remove_from fence 0 s3)).
      { cbn [occurs starts_with fence]. rewrite E3, !N.eqb_refl.
        reflexivity. }
      rewrite H2. apply IH. lia.
Qed.

Lemma remove_all_fence_free (s : jsstring) :
  occurs (js "```") (remove_all (js "```") s) = false.
Proof. apply (remove_fence_bounded (List.length s)). lia. Qed.

Lemma from_first_Some (c : N) (s t : jsstring) :
  from_first c s = Some t ->
  exists pre rest, s = pre ++ c :: rest /\ t = c :: rest /\ ~ In c pre.
Proof.
  induction s as [| x s IH]; cbn [from_first]; [discriminate |].
  destruct (N.eqb_spec x c) as [-> | Hne]; intros H.
  - injection H as <-. exists [], s. repeat split. intros [].
  - destruct (IH H) as [pre [rest [-> [-> Hpre]]]].
    exists (x :: pre), rest. repeat split.
    intros [Heq | Hin]; [congruence | exact (Hpre Hin)].
Qed.

Lemma upto_last_Some (c : N) (s m : jsstring) :
  upto_last c s = Some m ->
  exists mid post, m = mid ++ [c] /\ s = m ++ post /\ ~ In c post.
Proof.
  revert m. induction s as [| x s IH]; cbn [upto_last]; intros m;
    [discriminate |].
  destruct (upto_last c s) as [p |] eqn:Hp.
  - intros H. injection H as <-.
    destruct (IH p eq_refl) as [mid [post [-> [-> Hpost]]]].
    exists (x :: mid), post. repeat split. exact Hpost.
  - destruct (N.eqb_spec x c) as [-> | Hne]; [| discriminate].
    intros H. injection H as <-. exists [], s. repeat split.
    intros Hin. clear IH. revert Hp Hin.
    induction s as [| y s IHs]; cbn [upto_last]; [intros _ [] |].
    destruct (upto_last c s); [discriminate |].
    destruct (N.eqb_spec y c) as [-> | Hne]; [discriminate |].
    intros _ [Heq | Hin]; [congruence | exact (IHs eq_refl Hin)].
Qed.

Lemma upto_last_present (c : N) (s : jsstring) :
  In c s -> upto_last c s <> None.
Proof.
  induction s as [| x s IH]; cbn [upto_last]; [intros [] |].
  intros [-> | Hin].
  - destruct (upto_last c s); [discriminate |].
    rewrite N.eqb_refl. discriminate.
  - destruct (upto_last c s); [discriminate |].
    exfalso. exact (IH Hin eq_refl).
Qed.

(** A match, when there is one, is a stretch of the text that starts at its
    first opening brace and ends at its last closing brace. *)
Lemma match_braces_Some (s m : jsstring) :
  match_braces s = Some m ->
  exists pre mid post,
    s = pre ++ ch "{" :: mid ++ ch "}" :: post
    /\ m = ch "{" :: mid ++ [ch "}"]
    /\ ~ In (ch "{") pre /\ ~ In (ch "}") post.
Proof.
  unfold match_braces.
  destruct (from_first (ch "{") s) as [t |] eqn:Ht; [| discriminate].
  destruct (from_first_Some _ _ _ Ht) as [pre [rest [-> [-> Hpre]]]].
  intros Hm.
  destruct (upto_last_Some _ _ _ Hm) as [mid [post [-> [Hs Hpost]]]].
  destruct mid as [| b mid]; [discriminate |].
  injection Hs as <- Hrest.
  exists pre, mid, post. repeat split; try assumption.
  rewrite Hrest, <- app_assoc. reflexivity.
Qed.

(** There is a match as soon as some opening brace comes before some closing
    brace. *)
Lemma match_braces_present (a b c : jsstring) :
  match_braces (a ++ ch "{" :: b ++ ch "}" :: c) <> None.
Proof.
  unfold match_braces.
  destruct (from_first (ch "{") (a ++ ch "{" :: b ++ ch "}" :: c))
    as [t |] eqn:Ht.
  - apply upto_last_present.
    destruct (from_first_Some _ _ _ Ht) as [pre [rest [Hs [-> Hpre]]]].
    right.
    (* the first opening brace is at or before the one after [a] *)
    clear Ht. revert pre Hs Hpre.
    induction a as [| x a IH]; intros pre Hs Hpre.
    + destruct pre as [| y pre].
      * injection Hs as <-. apply in_or_app. right. left. reflexivity.
      * injection Hs as <- _. exfalso. apply Hpre. left. reflexivity.
    + destruct pre as [| y pre].
      * injection Hs as _ <-. apply in_or_app. right. right.
        apply in_or_app. right. left. reflexivity.
      * injection Hs as _ Hs. apply (IH pre Hs).
        intros Hin. apply Hpre. right. exact Hin.
  - exfalso. revert Ht. clear.
    induction a as [| x a IH]; cbn [app from_first].
    + rewrite N.eqb_refl. discriminate.
    + destruct (N.eqb x (ch "{")); [discriminate | exact IH].
Qed.

Lemma trimStart_head (s : jsstring) (a : N) (x : jsstring) :
  trimStart s = a :: x -> is_js_space a = false.
Proof.
  induction s as [| c s IH]; cbn [trimStart]; [discriminate |].
  destruct (is_js_space c) eqn:Hc; [exact IH |].
  intros H. injection H as <- _. exact Hc.
Qed.

Lemma trimStart_fixed (s : jsstring) :
  match s with [] => True | a :: _ => is_js_space a = false end ->
  trimStart s = s.
Proof.
  destruct s as [| a s]; [reflexivity |]. intros H. cbn [trimStart].
  rewrite H. reflexivity.
Qed.

Lemma trimStart_idem (s : jsstring) : trimStart (trimStart s) = trimStart s.
Proof.
  apply trimStart_fixed. destruct (trimStart s) as [| a x] eqn:H; [exact I |].
  exact (trimStart_head _ _ _ H).
Qed.

Lemma trimEnd_idem (s : jsstring) : trimEnd (trimEnd s) = trimEnd s.
Proof.
  unfold trimEnd. rewrite rev_involutive, trimStart_idem. reflexivity.
Qed.

(** Trimming the end of a text keeps its start trimmed. *)
Lemma trimStart_trimEnd (s : jsstring) :
  trimStart s = s -> trimStart (trimEnd s) = trimEnd s.
Proof.
  intros Hs. apply trimStart_fixed.
  destruct (trimEnd s) as [| a x] eqn:He; [exact I |].
  destruct (trimEnd_prefix s) as [w [Hsplit _]].
  rewrite He in Hsplit. rewrite Hsplit in Hs.
  exact (trimStart_head _ _ _ Hs).
Qed.

Lemma trim_idem (s : jsstring) : trim (trim s) = trim s.
Proof.
  unfold trim.
  rewrite (trimStart_trimEnd (trimStart s) (trimStart_idem s)).
  apply trimEnd_idem.
Qed.

Lemma stripped_fence_free (t : jsstring) :
  occurs (js "```") (stripped t) = false.
Proof. unfold stripped. apply occurs_trim, remove_all_fence_free. Qed.

Lemma occurs_infix (pat pre m post : jsstring) :
  occurs pat (pre ++ m ++ post) = false -> occurs pat m = false.
Proof.
  intros H. destruct (occurs pat m) eqn:Hm; [| reflexivity].
  rewrite <- H. symmetry. apply occurs_suffix, occurs_prefix. exact Hm.
Qed.

Lemma candidate_fence_free (t : jsstring) :
  occurs (js "```") (cleanJson t) = false.
Proof.
  rewrite cleanJson_eq.
  destruct (match_braces (stripped t)) as [m |] eqn:Hm;
    [| apply stripped_fence_free].
  destruct (match_braces_Some _ _ Hm) as [pre [mid [post [Hs [-> _]]]]].
  pose proof (stripped_fence_free t) as Hfree. rewrite Hs in Hfree.
  apply (occurs_infix (js "```") pre (ch "{" :: mid ++ [ch "}"]) post).
  replace (pre ++ (ch "{" :: mid ++ [ch "}"]) ++ post)
    with (pre ++ ch "{" :: mid ++ ch "}" :: post); [exact Hfree |].
  cbn [app]. rewrite <- app_assoc. reflexivity.
Qed.

(** X5. The parse candidate never contains a code-fence marker, whatever the
    response was: one pass of each removal is enough, and the brace match
    only takes a stretch of the stripped text. *)
Theorem cleanJson_has_no_fence_marker (t : jsstring) :
  occurs (js "```") (cleanJson t) = false
  /\ occurs (js "```json") (cleanJson t) = false.
Proof.
  split; [apply candidate_fence_free |].
  destruct (occurs (js "```json") (cleanJson t)) eqn:H; [| reflexivity].
  rewrite <- (candidate_fence_free t). symmetry.
  apply (occurs_app_l (js "```") (js "json")). exact H.
Qed.

(** X4. The cleansing has two outcomes and no third. Either the stripped text
    has an opening brace before a closing one, and the candidate is the
    stretch from its first opening to its last closing brace; or it has not,
    and the candidate is the whole stripped text. *)
Theorem cleanJson_is_brace_span_or_whole (t : jsstring) :
  (exists pre mid post,
      stripped t = pre ++ ch "{" :: mid ++ ch "}" :: post
      /\ ~ In (ch "{") pre /\ ~ In (ch "}") post
      /\ cleanJson t = ch "{" :: mid ++ [ch "}"])
  \/ ((forall a b c, stripped t <> a ++ ch "{" :: b ++ ch "}" :: c)
      /\ cleanJson t = stripped t).
Proof.
  rewrite cleanJson_eq.
  destruct (match_braces (stripped t)) as [m |] eqn:Hm.
  - left. destruct (match_braces_Some _ _ Hm) as [pre [mid [post [Hs [-> [Hpre Hpost]]]]]].
    exists pre, mid, post. repeat split; assumption.
  - right. split; [| reflexivity].
    intros a b c Hs. rewrite Hs in Hm. exact (match_braces_present a b c Hm).
Qed.

(** X6. Cleansing a candidate again gives the candidate back. *)
Theorem cleanJson_idempotent (t : jsstring) :
  cleanJson (cleanJson t) = cleanJson t.
Proof.
  pose proof (candidate_fence_free t) as Hfree.
  rewrite (cleanJson_eq t) in *.
  destruct (match_braces (stripped t)) as [m |] eqn:Hm.
  - destruct (match_braces_Some _ _ Hm) as [pre [mid [post [_ [-> _]]]]].
    rewrite (cleanJson_unfenced _ mid Hfree (trim_braced mid)).
    apply trim_braced.
  - assert (Htrim : trim (stripped t) = stripped t)
      by (unfold stripped; apply trim_idem).
    assert (H7 : occurs (js "```json") (stripped t) = false).
    { destruct (occurs (js "```json") (stripped t)) eqn:H; [| reflexivity].
      rewrite <- Hfree. symmetry.
      apply (occurs_app_l (js "```") (js "json")). exact H. }
    assert (Hss : stripped (stripped t) = stripped t).
    { change (stripped (stripped t))
        with (trim (remove_all (js "```")
                      (remove_all (js "```json") (trim (stripped t))))).
      rewrite Htrim, (remove_all_absent _ _ H7), (remove_all_absent _ _ Hfree).
      exact Htrim. }
    rewrite cleanJson_eq, Hss, Hm. reflexivity.
Qed.

End CleansingMore.

(** ** Further properties of extractOrder *)

Section ExtractOrderMore.

Context {Eng : Engine} {Json : JSON}.
Variable W : World.

(** X1. Every run of [extractOrder] on a message that converts to a string:
    [k] iterations answered by a rate-limit error, each one a call, a warning
    and a wait of 5000 ms; then, for [k = 3], the exhaustion error, and for
    [k < 3] one more call, whose answer (the first that is not a rate-limit
    error) is the outcome. Every call carries the same model and the same
    prompt, and nothing else is put on the trace. *)
Theorem extractOrder_runs (message : value) (text : jsstring) (tr : trace) :
  ToString message = Ok text ->
  let p := prompt text in
  exists k,
    k <= 3
    /\ (forall i, i < k -> retried (attempt_result W p (calls tr + i)) = true)
    /\ ((k = 3
         /\ extractOrder W message tr
            = (Throw exhausted, tr ++ retry_blocks p 3))
        \/ (k < 3
            /\ retried (attempt_result W p (calls tr + k)) = false
            /\ extractOrder W message tr
               = (attempt_result W p (calls tr + k),
                  tr ++ retry_blocks p k ++ [GenerateContent model p]))).
Proof.
  intros Hs p. rewrite (extractOrder_eq W _ _ _ Hs).
  apply retry_loop_shape.
Qed.

(** X2. A rate-limit error never leaves [extractOrder]: what it throws is the
    exhaustion error, an error of the service with another status, or an
    error of the engine. *)
Theorem extractOrder_never_throws_rate_limit
    (message : value) (tr tr' : trace) (e : error) :
  extractOrder W message tr = (Throw e, tr') ->
  is_rate_limit e = false.
Proof.
  unfold extractOrder, bind, lift.
  destruct (ToString message) as [text | e0] eqn:Hs.
  - destruct (retry_loop_shape W (prompt text) tr)
      as [k [_ [_ [[_ Hrun] | [_ [Hstop Hrun]]]]]];
      rewrite Hrun; intros H; injection H as H _.
    + rewrite <- H. reflexivity.
    + rewrite H in Hstop. exact Hstop.
  - intros H. injection H as <- _.
    rewrite (ToString_throws_TypeError _ _ Hs). reflexivity.
Qed.

Lemma prompt_eq (message : jsstring) :
  prompt message = prompt_head ++ message ++ [dquote; newline].
Proof.
  unfold prompt, prompt_head, quoted.
  rewrite map_app, concat_app. cbn [map List.concat].
  rewrite app_nil_r, <- !app_assoc. cbn [app].
  rewrite <- !app_assoc. reflexivity.
Qed.

(** X3. The message goes into the prompt as it is, between a fixed head and a
    closing quote and newline: nothing is escaped or cut, and different
    messages make different prompts. *)
Theorem prompt_embeds_message_verbatim (m1 m2 : jsstring) :
  prompt m1 = prompt_head ++ m1 ++ [dquote; newline]
  /\ (prompt m1 = prompt m2 -> m1 = m2).
Proof.
  split; [apply prompt_eq |].
  rewrite !prompt_eq. intros H.
  apply app_inv_head in H. apply app_inv_tail in H. exact H.
Qed.

End ExtractOrderMore.

(** ** Further properties of the append path *)

Section AppendPath.

Context {Eng : Engine} {Json : JSON}.
Variable W : World.

Lemma get_prop (v : value) (k : jsstring) :
  nullish v = false -> get v k = Ok (prop v k).
Proof. destruct v; try discriminate; reflexivity. Qed.

Lemma get_nullish (v : value) (k : jsstring) :
  nullish v = true -> get v k = Throw TypeError.
Proof. destruct v; try discriminate; reflexivity. Qed.

Lemma get_array_is_object (v : value) (k : jsstring) (l : list value) :
  get v k = Ok (VArr l) -> nullish v = false /\ truthy v = true.
Proof. destruct v; try discriminate; split; reflexivity. Qed.

Lemma row_of_cells (orderData it : value) (tr : trace) :
  nullish orderData = false -> nullish it = false ->
  row_of W orderData it tr
  = (Ok (row_cells (toLocaleString W (count is_NewDate tr)) orderData it),
     tr ++ [NewDate]).
Proof.
  intros Ho Hi. unfold row_of, bind, lift, new_Date_toLocaleString.
  rewrite !(get_prop _ _ Hi), (get_prop _ _ Ho). reflexivity.
Qed.

Lemma row_of_nullish (orderData it : value) (tr : trace) :
  nullish it = true ->
  row_of W orderData it tr = (Throw TypeError, tr ++ [NewDate]).
Proof.
  intros Hi. unfold row_of, bind, lift, new_Date_toLocaleString.
  rewrite (get_nullish _ _ Hi). reflexivity.
Qed.

Lemma count_NewDate_snoc (tr : trace) :
  count is_NewDate (tr ++ [NewDate]) = S (count is_NewDate tr).
Proof. rewrite count_app. unfold count at 2. simpl. lia. Qed.

Lemma repeat_snoc_app (k : nat) (tr : trace) :
  (tr ++ [NewDate]) ++ repeat NewDate k = tr ++ repeat NewDate (S k).
Proof. rewrite <- app_assoc. reflexivity. Qed.

(** The rows of a list of items none of which is [null]: one row per item,
    in order, each with its own reading of the clock. *)
Lemma mapM_row_of (orderData : value) (its : list value) :
  nullish orderData = false ->
  Forall (fun it => nullish it = false) its ->
  forall tr,
    mapM (row_of W orderData) its tr
    = (Ok (rows_of W orderData (count is_NewDate tr) its),
       tr ++ repeat NewDate (List.length its)).
Proof.
  intros Ho Hits. induction Hits as [| it its Hit _ IH]; intros tr.
  - simpl. rewrite app_nil_r. reflexivity.
  - cbn [mapM]. unfold bind at 1. rewrite (row_of_cells _ _ _ Ho Hit).
    unfold bind at 1. rewrite IH, count_NewDate_snoc, repeat_snoc_app.
    reflexivity.
Qed.

(** The first [null] among the items stops the mapping with a [TypeError],
    after a reading of the clock for each item up to it. *)
Lemma mapM_row_of_null (orderData : value) (pre : list value) (bad : value)
    (post : list value) :
  nullish orderData = false ->
  Forall (fun it => nullish it = false) pre ->
  nullish bad = true ->
  forall tr,
    mapM (row_of W orderData) (pre ++ bad :: post) tr
    = (Throw TypeError, tr ++ repeat NewDate (S (List.length pre))).
Proof.
  intros Ho Hpre Hbad. induction Hpre as [| it pre Hit _ IH]; intros tr.
  - cbn [app mapM]. unfold bind at 1. rewrite (row_of_nullish _ _ _ Hbad).
    reflexivity.
  - cbn [app mapM]. unfold bind at 1. rewrite (row_of_cells _ _ _ Ho Hit).
    unfold bind at 1. rewrite IH, repeat_snoc_app. reflexivity.
Qed.

(** A list of items is free of [null] or has a first one. *)
Lemma first_nullish (its : list value) :
  Forall (fun it => nullish it = false) its
  \/ exists pre bad post,
       its = pre ++ bad :: post
       /\ Forall (fun it => nullish it = false) pre
       /\ nullish bad = true.
Proof.
  induction its as [| it its [Hall | [pre [bad [post [-> [Hpre Hbad]]]]]]].
  - left. constructor.
  - destruct (nullish it) eqn:Hit.
    + right. exists [], it, its. repeat split; [constructor | exact Hit].
    + left. constructor; assumption.
  - destruct (nullish it) eqn:Hit.
    + right. exists [], it, (pre ++ bad :: post).
      repeat split; [constructor | exact Hit].
    + right. exists (it :: pre), bad, post.
      repeat split; [constructor; assumption | exact Hbad].
Qed.

Lemma rows_of_length (orderData : value) (n : nat) (its : list value) :
  List.length (rows_of W orderData n its) = List.length its.
Proof. apply map_index_length. Qed.

Lemma rows_of_nth (orderData : value) (n : nat) (its : list value)
    (i : nat) (it : value) :
  nth_error its i = Some it ->
  nth_error (rows_of W orderData n its) i
  = Some (row_cells (toLocaleString W (n + i)) orderData it).
Proof.
  intros H. unfold rows_of.
  apply (map_index_nth_error
           (fun it k => row_cells (toLocaleString W k) orderData it)
           its n i it H).
Qed.

(** What the handler does once the message is there and truthy. *)
Lemma post_orders_after_message (req_body message : value) (tr : trace) :
  get req_body (js "message") = Ok message ->
  truthy message = true ->
  post_orders W req_body tr
  = match extractOrder W message tr with
    | (Throw e, tr1) => (Ok (internal_error e), tr1 ++ [ConsoleError e])
    | (Ok orderData, tr1) =>
        match get orderData (js "items") with
        | Ok (VArr its) =>
            match getClient W (count is_GetClient tr1) with
            | Some e =>
                (Ok (internal_error e), tr1 ++ [GetClient; ConsoleError e])
            | None =>
                match mapM (row_of W orderData) its (tr1 ++ [GetClient]) with
                | (Throw e, tr2) =>
                    (Ok (internal_error e), tr2 ++ [ConsoleError e])
                | (Ok values, tr2) =>
                    match valuesAppend W (count is_ValuesAppend tr2) values with
                    | Some e =>
                        (Ok (internal_error e),
                         tr2 ++ [append_event W values; ConsoleError e])
                    | None =>
                        (Ok (saved orderData),
                         tr2 ++ [append_event W values])
                    end
                end
            end
        | _ => (Ok failed_to_parse, tr1)
        end
    end.
Proof.
  intros Hget Htruthy.
  unfold post_orders, try_catch. unfold bind at 1. unfold lift at 1.
  rewrite Hget. cbn [negb]. rewrite Htruthy. cbn [negb].
  unfold bind at 1.
  destruct (extractOrder W message tr) as [[orderData | e] tr1];
    [| unfold bind, emit, ret; reflexivity].
  destruct orderData as [| | b | n | s | l | fields];
    try reflexivity.
  - destruct b; reflexivity.
  - cbn [truthy negb]. destruct (number_is_falsy n); reflexivity.
  - destruct s; reflexivity.
  - cbn [truthy negb get]. unfold bind at 1. unfold lift at 1.
    destruct (lookup (js "items") fields) as [| | b | n | s | its | fs];
      try reflexivity.
    + destruct b; reflexivity.
    + cbn [truthy negb isArray orb]. destruct (number_is_falsy n); reflexivity.
    + destruct s; reflexivity.
    + cbn [truthy negb isArray orb elements].
      unfold bind at 1. unfold call_getClient at 1.
      destruct (getClient W (count is_GetClient tr1)) as [e |];
        [unfold bind, emit, ret; rewrite <- app_assoc; reflexivity |].
      unfold bind at 1.
      destruct (mapM (row_of W (VObj fields)) its (tr1 ++ [GetClient]))
        as [[values | e] tr2];
        [| unfold bind, emit, ret; reflexivity].
      unfold bind at 1. unfold call_valuesAppend at 1.
      destruct (valuesAppend W (count is_ValuesAppend tr2) values) as [e |].
      * unfold bind, emit, ret, append_event. rewrite <- app_assoc.
        reflexivity.
      * reflexivity.
Qed.

End AppendPath.

Section AppendPathCounts.

Context {Eng : Engine} {Json : JSON}.
Variable W : World.

Lemma count_loop_events (p : event -> bool) (added : trace) :
  (forall e, is_loop_event e = true -> p e = false) ->
  Forall (fun e => is_loop_event e = true) added ->
  count p added = 0.
Proof.
  intros Hp Hall. unfold count.
  induction Hall as [| e added He _ IH]; [reflexivity |].
  cbn [filter]. rewrite (Hp e He). exact IH.
Qed.

Lemma count_repeat_NewDate (p : event -> bool) (k : nat) :
  p NewDate = false -> count p (repeat NewDate k) = 0.
Proof.
  intros Hp. unfold count. induction k as [| k IH]; [reflexivity |].
  cbn [repeat filter]. rewrite Hp. exact IH.
Qed.

Lemma retry_blocks_loop_events (p : jsstring) (k : nat) :
  Forall (fun e => is_loop_event e = true) (retry_blocks p k).
Proof.
  induction k as [| k IH]; [constructor |].
  cbn [retry_blocks retry_block app]. repeat constructor. exact IH.
Qed.

(** What [extractOrder] adds to the trace: at most three calls, warnings and
    waits, and nothing else. *)
Lemma extractOrder_adds (message : value) (tr : trace) :
  exists added,
    snd (extractOrder W message tr) = tr ++ added
    /\ Forall (fun e => is_loop_event e = true) added
    /\ calls added <= 3.
Proof.
  unfold extractOrder, bind, lift.
  destruct (ToString message) as [text | e].
  - destruct (retry_loop_shape W (prompt text) tr)
      as [k [Hk [_ [[-> Hrun] | [Hlt [_ Hrun]]]]]]; rewrite Hrun; cbn [snd].
    + exists (retry_blocks (prompt text) 3).
      split; [reflexivity |]. split; [apply retry_blocks_loop_events |].
      apply Nat.eq_le_incl. reflexivity.
    + exists (retry_blocks (prompt text) k
              ++ [GenerateContent model (prompt text)]).
      split; [reflexivity |]. split.
      * apply Forall_app. split; [apply retry_blocks_loop_events |].
        repeat constructor.
      * pose proof (calls_retry_blocks (prompt text) k []) as Hc.
        cbn [app] in Hc. unfold calls in *. rewrite count_app, Hc.
        unfold count. simpl. lia.
  - exists []. cbn [snd]. rewrite app_nil_r.
    split; [reflexivity |]. split; [constructor |].
    unfold calls, count. simpl. lia.
Qed.

Lemma loop_event_kinds (e : event) :
  is_loop_event e = true ->
  is_GetClient e = false /\ is_ValuesAppend e = false
  /\ is_ValuesGet e = false /\ is_NewDate e = false.
Proof. destruct e; intros H; try discriminate; repeat split. Qed.

(** Nothing that [extractOrder] adds is a storage call or a reading of the
    clock. *)
Lemma loop_events_counts (added : trace) :
  Forall (fun e => is_loop_event e = true) added ->
  count is_GetClient added = 0 /\ count is_ValuesAppend added = 0
  /\ count is_ValuesGet added = 0 /\ count is_NewDate added = 0.
Proof.
  intros H. repeat split; apply count_loop_events; try exact H;
    intros e He; apply (loop_event_kinds e He).
Qed.

Lemma count_NewDate_after_client (tr1 : trace) :
  count is_NewDate (tr1 ++ [GetClient]) = count is_NewDate tr1.
Proof. rewrite count_app. unfold count at 2. simpl. lia. Qed.

Lemma count_ValuesAppend_after_clock (tr1 : trace) (n : nat) :
  count is_ValuesAppend ((tr1 ++ [GetClient]) ++ repeat NewDate n)
  = count is_ValuesAppend tr1.
Proof.
  rewrite !count_app, count_repeat_NewDate by reflexivity.
  unfold count at 2. simpl. lia.
Qed.

End AppendPathCounts.

Section AppendPathProperties.

Context {Eng : Engine} {Json : JSON}.
Variable W : World.

(** X7. The append path on a well-formed order: when the extracted value has an
    [items] array without [null] in it and the two storage calls succeed, the
    handler gets the client, reads the clock once per item, sends one append
    call with one row per item, in the order of the items, and answers 200
    with the extracted order. *)
Theorem post_orders_appends_one_row_per_item
    (req_body message orderData : value) (its : list value)
    (tr tr1 : trace) :
  get req_body (js "message") = Ok message ->
  truthy message = true ->
  extractOrder W message tr = (Ok orderData, tr1) ->
  get orderData (js "items") = Ok (VArr its) ->
  Forall (fun it => nullish it = false) its ->
  getClient W (count is_GetClient tr1) = None ->
  let rows := rows_of W orderData (count is_NewDate tr1) its in
  valuesAppend W (count is_ValuesAppend tr1) rows = None ->
  post_orders W req_body tr
  = (Ok (saved orderData),
     tr1 ++ GetClient :: repeat NewDate (List.length its)
         ++ [append_event W rows])
  /\ List.length rows = List.length its
  /\ (forall i it,
         nth_error its i = Some it ->
         nth_error rows i
         = Some (row_cells (toLocaleString W (count is_NewDate tr1 + i))
                           orderData it)).
Proof.
  intros Hget Htruthy Hextract Hitems Hits Hclient rows Happend.
  destruct (get_array_is_object _ _ _ Hitems) as [Ho _].
  split; [| split; [apply rows_of_length | intros i it; apply rows_of_nth]].
  rewrite (post_orders_after_message W _ _ _ Hget Htruthy).
  rewrite Hextract, Hitems, Hclient, (mapM_row_of W _ _ Ho Hits).
  rewrite count_ValuesAppend_after_clock, count_NewDate_after_client.
  fold rows. rewrite Happend, <- !app_assoc. reflexivity.
Qed.

(** X11. Storage failures on the append path. When getting the client fails, the
    handler answers 500 with the message of the error and neither reads the
    clock nor sends an append call. When the append call fails, it answers
    500 with the message of that error, the rows having been sent. *)
Theorem post_orders_storage_failure
    (req_body message orderData : value) (its : list value)
    (tr tr1 : trace) (e : error) :
  get req_body (js "message") = Ok message ->
  truthy message = true ->
  extractOrder W message tr = (Ok orderData, tr1) ->
  get orderData (js "items") = Ok (VArr its) ->
  Forall (fun it => nullish it = false) its ->
  let rows := rows_of W orderData (count is_NewDate tr1) its in
  (getClient W (count is_GetClient tr1) = Some e ->
   post_orders W req_body tr
   = (Ok (internal_error e), tr1 ++ [GetClient; ConsoleError e]))
  /\ (getClient W (count is_GetClient tr1) = None ->
      valuesAppend W (count is_ValuesAppend tr1) rows = Some e ->
      post_orders W req_body tr
      = (Ok (internal_error e),
         tr1 ++ GetClient :: repeat NewDate (List.length its)
             ++ [append_event W rows; ConsoleError e]))
  /\ statusCode (internal_error e) = 500%N
  /\ get (body (internal_error e)) (js "error") = Ok (VStr (error_message e)).
Proof.
  intros Hget Htruthy Hextract Hitems Hits rows.
  destruct (get_array_is_object _ _ _ Hitems) as [Ho _].
  rewrite (post_orders_after_message W _ _ _ Hget Htruthy).
  rewrite Hextract, Hitems.
  split; [| split; [| split; reflexivity]].
  - intros Hclient. rewrite Hclient. reflexivity.
  - intros Hclient Happend.
    rewrite Hclient, (mapM_row_of W _ _ Ho Hits).
    rewrite count_ValuesAppend_after_clock, count_NewDate_after_client.
    fold rows. rewrite Happend, <- !app_assoc. reflexivity.
Qed.


(** With an [items] array the handler goes on to storage: the first thing
    after the extraction is getting the client. *)
Lemma post_orders_array_gets_client
    (req_body message orderData : value) (its : list value)
    (tr tr1 : trace) :
  get req_body (js "message") = Ok message ->
  truthy message = true ->
  extractOrder W message tr = (Ok orderData, tr1) ->
  get orderData (js "items") = Ok (VArr its) ->
  exists r rest, post_orders W req_body tr = (r, tr1 ++ GetClient :: rest).
Proof.
  intros Hget Htruthy Hextract Hitems.
  destruct (get_array_is_object _ _ _ Hitems) as [Ho _].
  rewrite (post_orders_after_message W _ _ _ Hget Htruthy).
  rewrite Hextract, Hitems.
  destruct (getClient W (count is_GetClient tr1)) as [e |];
    [eexists; eexists; reflexivity |].
  destruct (first_nullish its)
    as [Hall | [pre [bad [post [-> [Hpre Hbad]]]]]].
  - rewrite (mapM_row_of W _ _ Ho Hall).
    match goal with
    | |- context [valuesAppend W ?n ?rows] =>
        destruct (valuesAppend W n rows)
    end; eexists; eexists; rewrite <- !app_assoc; reflexivity.
  - rewrite (mapM_row_of_null W _ _ _ post Ho Hpre Hbad).
    eexists; eexists; rewrite <- !app_assoc; reflexivity.
Qed.

(** X8. The check on the extracted value lets through exactly the values whose
    [items] is an array: for anything else ([null], a number, a string, an
    array, an object without [items] or with [items] that is not an array)
    the handler answers 500 "Failed to parse message into multiple items"
    right after the extraction, without touching storage or the console, and
    for nothing else does it stop there. *)
Theorem post_orders_requires_array_items
    (req_body message orderData : value) (tr tr1 : trace) :
  get req_body (js "message") = Ok message ->
  truthy message = true ->
  extractOrder W message tr = (Ok orderData, tr1) ->
  ((forall its, get orderData (js "items") <> Ok (VArr its)) <->
   post_orders W req_body tr = (Ok failed_to_parse, tr1))
  /\ statusCode failed_to_parse = 500%N.
Proof.
  intros Hget Htruthy Hextract. split; [| reflexivity]. split.
  - intros Hnot.
    rewrite (post_orders_after_message W _ _ _ Hget Htruthy), Hextract.
    destruct (get orderData (js "items")) as [[| | b | n | s | its | fs] | e];
      try reflexivity.
    exfalso. exact (Hnot its eq_refl).
  - intros Hpost its Hitems.
    destruct (post_orders_array_gets_client _ _ _ _ _ _
                Hget Htruthy Hextract Hitems) as [r [rest Hgo]].
    rewrite Hgo in Hpost. injection Hpost as _ Htrace.
    apply (f_equal (@List.length event)) in Htrace.
    rewrite length_app in Htrace. simpl in Htrace. lia.
Qed.

(** X9. A failed extraction: the handler answers 500 with the message of the
    error that [extractOrder] threw and logs it; before that the trace has
    only what the extraction left there, at most three calls with their
    warnings and waits, so storage is not touched. *)
Theorem post_orders_extraction_failure
    (req_body message : value) (tr tr1 : trace) (e : error) :
  get req_body (js "message") = Ok message ->
  truthy message = true ->
  extractOrder W message tr = (Throw e, tr1) ->
  exists added,
    tr1 = tr ++ added
    /\ post_orders W req_body tr
       = (Ok (internal_error e), tr ++ added ++ [ConsoleError e])
    /\ get (body (internal_error e)) (js "error") = Ok (VStr (error_message e))
    /\ statusCode (internal_error e) = 500%N
    /\ calls added <= 3
    /\ count is_GetClient (added ++ [ConsoleError e]) = 0
    /\ count is_ValuesAppend (added ++ [ConsoleError e]) = 0.
Proof.
  intros Hget Htruthy Hextract.
  destruct (extractOrder_adds W message tr) as [added [Htr [Hloop Hcalls]]].
  rewrite Hextract in Htr. cbn [snd] in Htr.
  exists added. split; [exact Htr |].
  split.
  { rewrite (post_orders_after_message W _ _ _ Hget Htruthy), Hextract, Htr.
    rewrite <- app_assoc. reflexivity. }
  split; [reflexivity |]. split; [reflexivity |]. split; [exact Hcalls |].
  destruct (loop_events_counts added Hloop) as [Hg [Ha _]].
  split; rewrite count_app; [rewrite Hg | rewrite Ha]; reflexivity.
Qed.

End AppendPathProperties.

Section AppendPathInvariants.

Context {Eng : Engine} {Json : JSON}.
Variable W : World.

Ltac tally added0 Hg Ha Hv :=
  unfold calls in *;
  rewrite ?count_app, ?count_repeat_NewDate by reflexivity;
  rewrite ?Hg, ?Ha, ?Hv;
  set (c0 := count is_GenerateContent added0) in *;
  unfold count, append_event; simpl; lia.

Ltac leaf added0 Hg Ha Hv :=
  split; [rewrite <- ?app_assoc; reflexivity |];
  split; [simpl; tauto |];
  repeat split;
  try (intros Hst; simpl in Hst; discriminate Hst);
  try tally added0 Hg Ha Hv.

(** X13. Whatever the request and whatever the outside world answers, the handler
    of [POST /orders] ends with an answer and never with an uncaught error.
    The answer is 200, 400 or 500. On the way it calls the completion service
    at most three times, gets the storage client at most once, sends at most
    one append call and never reads the sheet. It answers 200 only after
    exactly one append call, and 400 only without having done anything. *)
Theorem post_orders_always_answers (req_body : value) (tr : trace) :
  exists r added,
    post_orders W req_body tr = (Ok r, tr ++ added)
    /\ (statusCode r = 200%N \/ statusCode r = 400%N \/ statusCode r = 500%N)
    /\ calls added <= 3
    /\ count is_GetClient added <= 1
    /\ count is_ValuesAppend added <= 1
    /\ count is_ValuesGet added = 0
    /\ (statusCode r = 200%N -> count is_ValuesAppend added = 1)
    /\ (statusCode r = 400%N -> added = []).
Proof.
  destruct (get req_body (js "message")) as [message | e0] eqn:Hget.
  2:{ exists (internal_error e0), [ConsoleError e0].
      split.
      { unfold post_orders, try_catch. unfold bind at 1. unfold lift at 1.
        rewrite Hget. reflexivity. }
      split; [simpl; tauto |].
      repeat split; try reflexivity;
        try (unfold calls, count; simpl; lia);
        intros Hst; simpl in Hst; discriminate Hst. }
  destruct (truthy message) eqn:Htruthy.
  2:{ exists missing_message, [].
      split.
      { unfold post_orders, try_catch. unfold bind at 1. unfold lift at 1.
        rewrite Hget. cbn [negb]. rewrite Htruthy, app_nil_r. reflexivity. }
      split; [simpl; tauto |].
      repeat split; try reflexivity;
        try (unfold calls, count; simpl; lia);
        intros Hst; simpl in Hst; discriminate Hst. }
  rewrite (post_orders_after_message W _ _ _ Hget Htruthy).
  destruct (extractOrder_adds W message tr) as [added0 [Htr [Hloop Hc]]].
  destruct (loop_events_counts added0 Hloop) as [Hg [Ha [Hv _]]].
  destruct (extractOrder W message tr) as [[orderData | e] tr1];
    cbn [snd] in Htr; subst tr1.
  2:{ exists (internal_error e), (added0 ++ [ConsoleError e]).
      leaf added0 Hg Ha Hv. }
  destruct (get orderData (js "items")) as [items | e] eqn:Hitems.
  2:{ exists failed_to_parse, added0. leaf added0 Hg Ha Hv. }
  destruct items as [| | b | n | s | its | fs];
    try (exists failed_to_parse, added0; leaf added0 Hg Ha Hv).
  destruct (get_array_is_object _ _ _ Hitems) as [Ho _].
  destruct (getClient W (count is_GetClient (tr ++ added0))) as [e |].
  { exists (internal_error e), (added0 ++ [GetClient; ConsoleError e]).
    leaf added0 Hg Ha Hv. }
  destruct (first_nullish its)
    as [Hall | [pre [bad [post [-> [Hpre Hbad]]]]]].
  - rewrite (mapM_row_of W _ _ Ho Hall).
    match goal with
    | |- context [valuesAppend W ?n ?rows] =>
        destruct (valuesAppend W n rows) as [e |];
        [exists (internal_error e),
           (added0 ++ [GetClient] ++ repeat NewDate (List.length its)
              ++ [append_event W rows; ConsoleError e])
        | exists (saved orderData),
           (added0 ++ [GetClient] ++ repeat NewDate (List.length its)
              ++ [append_event W rows])]
    end; leaf added0 Hg Ha Hv.
  - rewrite (mapM_row_of_null W _ _ _ post Ho Hpre Hbad).
    exists (internal_error TypeError),
      (added0 ++ [GetClient] ++ repeat NewDate (S (List.length pre))
         ++ [ConsoleError TypeError]).
    leaf added0 Hg Ha Hv.
Qed.

End AppendPathInvariants.

(** ** Further properties of the read path *)

Section ReadPath.

Context {Eng : Engine} {Json : JSON}.
Variable W : World.

Lemma get_orders_eq (tr : trace) :
  get_orders W tr
  = match getClient W (count is_GetClient tr) with
    | Some e => (Ok (internal_error e), tr ++ [GetClient; ConsoleError e])
    | None =>
        match valuesGet W (count is_ValuesGet tr) with
        | Throw e =>
            (Ok (internal_error e),
             tr ++ [GetClient; get_event W; ConsoleError e])
        | Ok rows =>
            (Ok (listed match rows with
                        | Some rows => formatted rows
                        | None => []
                        end),
             tr ++ [GetClient; get_event W])
        end
    end.
Proof.
  unfold get_orders, try_catch. unfold bind at 1. unfold call_getClient.
  destruct (getClient W (count is_GetClient tr)) as [e |].
  - unfold bind, emit, ret. rewrite <- app_assoc. reflexivity.
  - unfold bind at 1. unfold call_valuesGet.
    rewrite count_app. change (count is_ValuesGet [GetClient]) with 0.
    rewrite Nat.add_0_r.
    destruct (valuesGet W (count is_ValuesGet tr)) as [rows | e].
    + unfold get_event. rewrite <- app_assoc.
      destruct rows as [[| header rows] |]; reflexivity.
    + unfold bind, emit, ret, get_event. rewrite <- !app_assoc. reflexivity.
Qed.

(** X14. A sheet without data rows: when the range is empty (the service gives
    no [values] at all, or an empty list) or holds the header row only, the
    handler answers 200 with [success] true and an empty list of orders. *)
Theorem get_orders_without_data_rows
    (rows : option (list (list value))) (tr : trace) :
  getClient W (count is_GetClient tr) = None ->
  valuesGet W (count is_ValuesGet tr) = Ok rows ->
  rows = None \/ rows = Some [] \/ (exists header, rows = Some [header]) ->
  get_orders W tr = (Ok (listed []), tr ++ [GetClient; get_event W])
  /\ statusCode (listed []) = 200%N
  /\ get (body (listed [])) (js "success") = Ok (VBool true)
  /\ get (body (listed [])) (js "orders") = Ok (VArr []).
Proof.
  intros Hclient Hget Hrows.
  split; [| repeat split; reflexivity].
  rewrite get_orders_eq, Hclient, Hget.
  destruct Hrows as [-> | [-> | [header ->]]]; reflexivity.
Qed.

(** X15. The records number the data rows 1, 2, 3, ... in the order of the sheet,
    there is one record per row after the first, and the first row does not
    matter: nothing of it reaches the answer. *)
Theorem formatted_numbers_rows_from_one
    (header header' : list value) (rows : list (list value)) :
  formatted (header :: rows) = formatted (header' :: rows)
  /\ List.length (formatted (header :: rows)) = List.length rows
  /\ (forall i row,
         nth_error rows i = Some row ->
         exists record,
           nth_error (formatted (header :: rows)) i = Some record
           /\ get record (js "id") = Ok (VNum (number_of_nat (i + 1)))).
Proof.
  split; [reflexivity |]. split; [apply map_index_length |].
  intros i row Hrow. exists (format_row row i). split; [| reflexivity].
  apply (map_index_nth_error format_row rows 0 i row Hrow).
Qed.

(** X17. A failure of storage on the read path: whether getting the client or
    reading the range fails, the handler answers 500 with [success] false and
    the message of the error, and logs the error; when getting the client
    fails the range is not read. *)
Theorem get_orders_storage_failure (tr : trace) (e : error) (added : trace) :
  (getClient W (count is_GetClient tr) = Some e
   /\ added = [GetClient; ConsoleError e])
  \/ (getClient W (count is_GetClient tr) = None
      /\ valuesGet W (count is_ValuesGet tr) = Throw e
      /\ added = [GetClient; get_event W; ConsoleError e]) ->
  get_orders W tr = (Ok (internal_error e), tr ++ added)
  /\ statusCode (internal_error e) = 500%N
  /\ get (body (internal_error e)) (js "success") = Ok (VBool false)
  /\ get (body (internal_error e)) (js "error") = Ok (VStr (error_message e)).
Proof.
  intros H. split; [| repeat split; reflexivity].
  rewrite get_orders_eq.
  destruct H as [[Hclient ->] | [Hclient [Hget ->]]]; rewrite Hclient;
    [| rewrite Hget]; reflexivity.
Qed.

(** X18. Whatever storage answers, the handler of [GET /orders] ends with an
    answer, 200 or 500, and never with an uncaught error. It gets the storage
    client once and reads the range at most once; it never calls the
    completion service, never reads the clock and never appends. *)
Theorem get_orders_always_answers (tr : trace) :
  exists r added,
    get_orders W tr = (Ok r, tr ++ added)
    /\ (statusCode r = 200%N \/ statusCode r = 500%N)
    /\ count is_GetClient added = 1
    /\ count is_ValuesGet added <= 1
    /\ (statusCode r = 200%N -> count is_ValuesGet added = 1)
    /\ calls added = 0
    /\ count is_NewDate added = 0
    /\ count is_ValuesAppend added = 0.
Proof.
  rewrite get_orders_eq.
  destruct (getClient W (count is_GetClient tr)) as [e |];
    [| destruct (valuesGet W (count is_ValuesGet tr)) as [rows | e]];
    eexists; eexists; (split; [reflexivity |]);
    (split; [simpl; tauto |]);
    repeat split;
    try (intros Hst; simpl in Hst; discriminate Hst);
    unfold calls, count, get_event; simpl; lia.
Qed.

(** X16. Every field of a record but [id] is the cell of its column when that
    cell is truthy, and the empty string when the cell is falsy (an empty
    string, [null], [false], a zero): a falsy cell and a missing one read the
    same. *)
Theorem format_row_reads_cells
    (row : list value) (index : nat) (name : string) (column : nat)
    (v : value) :
  In (name, column) read_columns ->
  nth_error row column = Some v ->
  get (format_row row index) (js name)
  = Ok (if truthy v then v else VStr []).
Proof.
  intros Hin Hcell.
  assert (Hnth : cell row column = v).
  { unfold cell. apply nth_error_nth. exact Hcell. }
  simpl in Hin.
  repeat (destruct Hin as [Hin | Hin];
          [injection Hin as <- <-; cbn [format_row get lookup];
           simpl jsstring_eqb; cbv iota;
           rewrite Hnth; reflexivity |]).
  contradiction.
Qed.

End ReadPath.

Section UnconvertibleMessage.

Context {Eng : Engine} {Json : JSON}.
Variable W : World.

(** X10. A message that cannot be converted to a string, an object with a
    property of its own called [toString]: building the prompt throws a
    [TypeError] before the loop is entered, so the handler answers 500
    without any call to the completion service or to storage. *)
Theorem post_orders_unconvertible_message
    (req_body : value) (fields : list (jsstring * value)) (tr : trace) :
  get req_body (js "message") = Ok (VObj fields) ->
  has_key (js "toString") fields = true ->
  post_orders W req_body tr
  = (Ok (internal_error TypeError), tr ++ [ConsoleError TypeError])
  /\ statusCode (internal_error TypeError) = 500%N.
Proof.
  intros Hget Hkey. split; [| reflexivity].
  rewrite (post_orders_after_message W _ _ _ Hget eq_refl).
  unfold extractOrder, bind, lift. cbn [ToString]. rewrite Hkey. reflexivity.
Qed.

End UnconvertibleMessage.

(** ** The further properties at work *)

Lemma extractOrder_runs_witness :
  let W := example_world
             (fun n => match n with
                       | 0 | 1 => rate_limited
                       | _ => Generated (fenced empty_order_text)
                       end) None in
  let p := prompt (js "nothing for A") in
  extractOrder W (VStr (js "nothing for A")) []
  = (Ok empty_order, retry_blocks p 2 ++ [GenerateContent model p]).
Proof.
  intros W p.
  destruct (extractOrder_runs W (VStr (js "nothing for A"))
              (js "nothing for A") [] eq_refl)
    as [k [Hk [Hall [[-> Hrun] | [Hlt [Hstop Hrun]]]]]].
  - exfalso. specialize (Hall 2 ltac:(lia)). vm_compute in Hall.
    discriminate Hall.
  - destruct k as [| [| [| k]]]; try lia.
    + vm_compute in Hstop. discriminate Hstop.
    + vm_compute in Hstop. discriminate Hstop.
    + rewrite Hrun. vm_compute. reflexivity.
Defined.

Lemma extractOrder_never_throws_rate_limit_witness :
  is_rate_limit exhausted = false.
Proof.
  apply (extractOrder_never_throws_rate_limit
           (example_world (fun _ => rate_limited) None)
           (VStr (js "2 kg chicken")) []
           (retry_blocks (prompt (js "2 kg chicken")) 3) exhausted).
  vm_compute. reflexivity.
Defined.

Lemma post_orders_appends_one_row_per_item_witness :
  let W := example_world (fun _ => Generated upi_order_text) None in
  let p := prompt (js "2 kg chicken for A, paid by UPI") in
  post_orders W order_request []
  = (Ok (saved upi_order),
     [GenerateContent model p] ++ GetClient :: repeat NewDate 1
       ++ [append_event W (rows_of W upi_order 0 (elements (prop upi_order (js "items"))))]).
Proof.
  intros W p.
  apply (post_orders_appends_one_row_per_item W order_request
           (VStr (js "2 kg chicken for A, paid by UPI")) upi_order
           (elements (prop upi_order (js "items"))) []
           [GenerateContent model p]);
    try (vm_compute; reflexivity).
  repeat constructor.
Defined.

Lemma post_orders_storage_failure_witness :
  let W := example_world_with (fun _ => Generated upi_order_text)
             (Some storage_down) None (Ok None) in
  let p := prompt (js "2 kg chicken for A, paid by UPI") in
  post_orders W order_request []
  = (Ok (internal_error storage_down),
     [GenerateContent model p] ++ [GetClient; ConsoleError storage_down]).
Proof.
  intros W p.
  apply (post_orders_storage_failure W order_request
           (VStr (js "2 kg chicken for A, paid by UPI")) upi_order
           (elements (prop upi_order (js "items"))) []
           [GenerateContent model p] storage_down);
    try (vm_compute; reflexivity).
  repeat constructor.
Defined.


Lemma post_orders_requires_array_items_witness :
  let W := example_world (fun _ => Generated (js "{}")) None in
  let p := prompt (js "2 kg chicken for A, paid by UPI") in
  post_orders W order_request []
  = (Ok failed_to_parse, [GenerateContent model p]).
Proof.
  intros W p.
  apply (post_orders_requires_array_items W order_request
           (VStr (js "2 kg chicken for A, paid by UPI")) (VObj []) []
           [GenerateContent model p] eq_refl eq_refl).
  - vm_compute. reflexivity.
  - intros its H. discriminate H.
Defined.

Lemma post_orders_extraction_failure_witness :
  let W := example_world (fun _ => rate_limited) None in
  let p := prompt (js "2 kg chicken for A, paid by UPI") in
  exists added,
    retry_blocks p 3 = [] ++ added
    /\ post_orders W order_request []
       = (Ok (internal_error exhausted), [] ++ added ++ [ConsoleError exhausted])
    /\ get (body (internal_error exhausted)) (js "error")
       = Ok (VStr (js "Gemini API exhausted or returned invalid JSON.")).
Proof.
  intros W p.
  destruct (post_orders_extraction_failure W order_request
              (VStr (js "2 kg chicken for A, paid by UPI")) []
              (retry_blocks p 3) exhausted eq_refl eq_refl)
    as [added [Htr [Hpost [Hmsg _]]]].
  - vm_compute. reflexivity.
  - exists added. repeat split; assumption.
Defined.

Lemma post_orders_unconvertible_message_witness :
  let W := example_world (fun _ => rate_limited) None in
  post_orders W
    (VObj [(js "message", VObj [(js "toString", VBool true)])]) []
  = (Ok (internal_error TypeError), [ConsoleError TypeError]).
Proof.
  intros W.
  apply (post_orders_unconvertible_message W
           (VObj [(js "message", VObj [(js "toString", VBool true)])])
           [(js "toString", VBool true)] []);
    reflexivity.
Defined.

Lemma get_orders_without_data_rows_witness :
  let W := example_world (fun _ => Unreadable) (Some [header_row]) in
  get_orders W [] = (Ok (listed []), [GetClient; get_event W]).
Proof.
  intros W.
  apply (get_orders_without_data_rows W (Some [header_row]) []);
    try reflexivity.
  right. right. exists header_row. reflexivity.
Defined.

Lemma get_orders_storage_failure_witness :
  let W := example_world_with (fun _ => Unreadable) None None
             (Throw storage_down) in
  get_orders W []
  = (Ok (internal_error storage_down),
     [GetClient; get_event W; ConsoleError storage_down]).
Proof.
  intros W.
  apply (get_orders_storage_failure W [] storage_down
           [GetClient; get_event W; ConsoleError storage_down]).
  right. repeat split; reflexivity.
Defined.

Lemma format_row_reads_cells_witness :
  get (format_row [VStr (js "1/1/2025"); VStr (js "chicken"); VStr []] 0)
      (js "datetime") = Ok (VStr (js "chicken"))
  /\ get (format_row [VStr (js "1/1/2025"); VStr (js "chicken"); VStr []] 0)
         (js "item") = Ok (VStr []).
Proof.
  split.
  - apply (format_row_reads_cells
             [VStr (js "1/1/2025"); VStr (js "chicken"); VStr []] 0
             "datetime"%string 1 (VStr (js "chicken")));
      [simpl; tauto | reflexivity].
  - apply (format_row_reads_cells
             [VStr (js "1/1/2025"); VStr (js "chicken"); VStr []] 0
             "item"%string 2 (VStr []));
      [simpl; tauto | reflexivity].
Defined.
